(** * Response scoring of the domain analyser (server/services/ai.ts)

    A shallow embedding of the three scoring helpers of [ai.ts]:
    [analyzeKeywordRelevance], [calculatePerformanceScore] and
    [calculateSentimentScore], together with the part of the ECMAScript
    library they call ([toLowerCase], [includes], [split] and [replace] on
    the regular expression [\s+], [Math.round] and binary64 division and
    multiplication).

    Strings are sequences of code units.  The development covers the
    code units U+0000 to U+00FF, with Rocq's [ascii] as the code unit: on
    that range [toLowerCase] and the class [\s] are given in full. *)

From Stdlib Require Import ZArith List Bool Ascii String Lia SpecFloat.
From Stdlib Require Import Permutation Sorted.
Import ListNotations.

Local Open Scope string_scope.
Local Open Scope Z_scope.

(** ** The ECMAScript string primitives used by [ai.ts] *)

Module JS.

(** The class [\s] of ECMAScript regular expressions (WhiteSpace and
    LineTerminator), on the code units up to U+00FF: TAB, LF, VT, FF, CR,
    SPACE and NO-BREAK SPACE. *)
Definition isWhiteSpace (c : ascii) : bool :=
  let n := nat_of_ascii c in
  ((9 <=? n) && (n <=? 13) || (n =? 32) || (n =? 160))%nat.

(** Simple lower-case mapping of one code unit: A to Z, and the capital
    letters U+00C0 to U+00DE but for the multiplication sign U+00D7. *)
Definition lowerChar (c : ascii) : ascii :=
  let n := nat_of_ascii c in
  if ((65 <=? n) && (n <=? 90)
      || (192 <=? n) && (n <=? 222) && negb (n =? 215))%nat
  then ascii_of_nat (n + 32) else c.

(** [String.prototype.toLowerCase]. *)
Fixpoint toLowerCase (s : string) : string :=
  match s with
  | EmptyString => EmptyString
  | String c s' => String (lowerChar c) (toLowerCase s')
  end.

(** [s.startsWith(p)]: the test [includes] makes at one position. *)
Fixpoint startsWith (s p : string) : bool :=
  match p, s with
  | EmptyString, _ => true
  | String _ _, EmptyString => false
  | String a p', String b s' => Ascii.eqb a b && startsWith s' p'
  end.

(** [String.prototype.includes]: [searchString] occurs in [s] at some
    position from 0 to [s.length]. *)
Fixpoint includes (s searchString : string) : bool :=
  startsWith s searchString
  || match s with
     | EmptyString => false
     | String _ s' => includes s' searchString
     end.

(** [s.split(/\s+/)].  The scan keeps the piece [cur] read since the end
    of the last separator; a white space character outside a separator
    closes the piece and opens a separator, the following white space
    characters belong to that separator, and the end of the string closes
    the last piece.  The empty string gives one empty piece. *)
Fixpoint split_scan (inSep : bool) (cur s : string) : list string :=
  match s with
  | EmptyString => [cur]
  | String c s' =>
      if isWhiteSpace c then
        if inSep then split_scan true cur s'
        else cur :: split_scan true EmptyString s'
      else split_scan false (cur ++ String c EmptyString) s'
  end.

Definition split_ws (s : string) : list string :=
  split_scan false EmptyString s.

(** [s.replace(/\s+/g, '')]: every run of white space is removed. *)
Fixpoint replace_ws (s : string) : string :=
  match s with
  | EmptyString => EmptyString
  | String c s' =>
      if isWhiteSpace c then replace_ws s' else String c (replace_ws s')
  end.

(** [Array.prototype.some] and [Array.prototype.filter]. *)
Definition some {A : Type} (f : A -> bool) (l : list A) : bool := existsb f l.

(** [Array.prototype.forEach] with a callback that updates the state [S]
    (the variables the callback closes over). *)
Definition forEach {A S : Type} (l : list A) (f : S -> A -> S) (init : S) : S :=
  fold_left f l init.

(** [Array.prototype.push] of one element. *)
Definition push {A : Type} (l : list A) (x : A) : list A := l ++ [x].

End JS.

(** ** ECMAScript numbers: IEEE 754 binary64 *)

Module Number.

Definition prec : Z := 53.
Definition emax : Z := 1024.

(** A Number value, in the Standard Library's specification of binary64. *)
Definition number : Type := spec_float.

(** The Number value of an integer (round to nearest, ties to even). *)
Definition ofZ (z : Z) : number := binary_normalize prec emax z 0 false.

(** The operators [/] and [*] on Numbers. *)
Definition div (x y : number) : number := SFdiv prec emax x y.
Definition mul (x y : number) : number := SFmul prec emax x y.

(** [Math.round]: the integer nearest to [x], ties towards +Infinity,
    that is [floor (x + 1/2)], computed exactly.  NaN and the infinities
    are returned unchanged by [Math.round]: they are no integer, [None]
    here.  A zero of either sign reads as the integer 0. *)
Definition Math_round (x : number) : option Z :=
  match x with
  | S754_zero _ => Some 0
  | S754_finite s m e =>
      let sm := if s then Z.neg m else Z.pos m in
      if 0 <=? e then Some (sm * 2 ^ e)
      else Some ((2 * sm + 2 ^ (- e)) / 2 ^ (1 - e))
  | S754_infinity _ | S754_nan => None
  end.

(** The expression [Math.round((positiveCount / total) * 100)]. *)
Definition percent (positiveCount total : Z) : option Z :=
  Math_round (mul (div (ofZ positiveCount) (ofZ total)) (ofZ 100)).

(** *** Predicates on the rounding of the Standard Library's specification *)

(** [shifted k x y]: the record [y] is [x] after [k] right shifts. *)
Definition shifted (k : Z) (x y : shr_record) : Prop :=
  0 <= shr_m x ->
  shr_m y = shr_m x / 2 ^ k
  /\ (shr_r x = false -> shr_s x = false -> shr_m x mod 2 ^ k = 0 ->
      shr_r y = false /\ shr_s y = false).

(** The interval from [KL * 2 ^ c] to [KU * 2 ^ c].  [within]: the
    truncated mantissa [m] at exponent [e], with the location [l] of the
    exact value above it, lies in the interval, and an inexact value lies
    strictly below the upper end. *)
Definition within (KL KU c : Z) (l : location) (m e : Z) : Prop :=
  0 <= m /\ e <= c
  /\ KL * 2 ^ (c - e) <= m <= KU * 2 ^ (c - e)
  /\ (l <> loc_Exact -> m < KU * 2 ^ (c - e)).

(** [between]: a Number in the interval, that is a zero, or a positive
    finite Number whose exponent is at most [c]. *)
Definition between (KL KU c : Z) (x : number) : Prop :=
  match x with
  | S754_zero _ => KL <= 0
  | S754_finite false m e =>
      e <= c /\ KL * 2 ^ (c - e) <= Z.pos m <= KU * 2 ^ (c - e)
  | _ => False
  end.

End Number.

(** ** The scoring helpers of [ai.ts] *)

Module Ai.
Import JS.

(** The condition of the [if] in [analyzeKeywordRelevance], for one
    [keyword] against the lower-cased text. *)
Definition keywordMatches (textLower keyword : string) : bool :=
  let keywordLower := toLowerCase keyword in
  includes textLower keywordLower
  || includes textLower (replace_ws keywordLower)
  || some (fun word => includes word keywordLower || includes keywordLower word)
          (split_ws textLower).

Definition analyzeKeywordRelevance (text : string) (keywords : list string)
  : list string :=
  let textLower := toLowerCase text in
  forEach keywords
    (fun relevantKeywords keyword =>
       if keywordMatches textLower keyword
       then push relevantKeywords keyword
       else relevantKeywords)
    [].

Definition qualityWords : list string :=
  ["strategy"; "analysis"; "recommendation"; "insight"; "opportunity";
   "potential"; "market"; "competitive"; "growth"].

(** [sentimentScore] and [responseTime] are integer Numbers ([Z]); every
    intermediate value is then an integer, which [Math.round] leaves as it
    is.  [Math.floor (text.length / 100)] is the integer quotient. *)
Definition calculatePerformanceScore
  (text : string) (sentimentScore responseTime : Z) : Z :=
  let score := sentimentScore in
  let lengthBonus := Z.min 20 (Z.of_nat (String.length text) / 100) in
  let score := score + lengthBonus in
  let score :=
    if responseTime <? 3000 then score + 10
    else if responseTime <? 5000 then score + 5
    else score in
  let qualityScore :=
    Z.of_nat (List.length
      (filter (fun word => includes (toLowerCase text) word) qualityWords)) * 2 in
  let score := score + qualityScore in
  (* Math.round(score) is score, an integer *)
  Z.min 100 (Z.max 0 score).

Definition positiveWords : list string :=
  ["excellent"; "great"; "good"; "positive"; "strong"; "potential";
   "opportunity"; "success"; "effective"; "valuable"].

Definition negativeWords : list string :=
  ["poor"; "bad"; "negative"; "weak"; "problem"; "issue"; "challenge";
   "difficulty"; "risk"; "concern"].

(** The two counters after the [forEach] over the words. *)
Definition countSentimentWords (words : list string) : Z * Z :=
  forEach words
    (fun '(positiveCount, negativeCount) word =>
       let positiveCount :=
         if some (fun pw => includes word pw) positiveWords
         then positiveCount + 1 else positiveCount in
       let negativeCount :=
         if some (fun nw => includes word nw) negativeWords
         then negativeCount + 1 else negativeCount in
       (positiveCount, negativeCount))
    (0, 0).

(** The result is [Some z] when the returned Number is the integer [z],
    and [None] when it is NaN or infinite. *)
Definition calculateSentimentScore (text : string) : option Z :=
  let words := split_ws (toLowerCase text) in
  let '(positiveCount, negativeCount) := countSentimentWords words in
  let totalSentimentWords := positiveCount + negativeCount in
  if totalSentimentWords =? 0 then Some 75
  else
    Number.Math_round
      (Number.mul
         (Number.div (Number.ofZ positiveCount)
                     (Number.ofZ totalSentimentWords))
         (Number.ofZ 100)).

(** The three values that [analyzeWithOpenAI] and [analyzeWithGemini]
    derive from a response text, in the order they compute them. *)
Record AnalysisResult : Type := {
  sentimentScore : Z;
  keywordRelevance : list string;
  performanceScore : Z
}.

Definition score (text : string) (keywords : list string) (elapsedMs : Z)
  : option AnalysisResult :=
  match calculateSentimentScore text with
  | Some sentiment =>
      Some {| sentimentScore := sentiment;
              keywordRelevance := analyzeKeywordRelevance text keywords;
              performanceScore :=
                calculatePerformanceScore text sentiment elapsedMs |}
  | None => None
  end.

End Ai.

(** ** The scoring module as the specification words it

    The definitions of this module follow the specification (sections
    4.1 to 4.3 and the data model); the theorems below compare them with
    the functions of [Ai]. *)

Module Spec.
Import JS.

(** A String value has at most [2 ^ 53 - 1] code units (ECMAScript, the
    String type). *)
Definition maxStringLength : Z := 2 ^ 53 - 1.

Definition validString (s : string) : Prop :=
  Z.of_nat (String.length s) <= maxStringLength.

(** [sub] occurs in [s] as a substring. *)
Definition Substring (sub s : string) : Prop :=
  exists pre post, s = pre ++ sub ++ post.

(** [l1] keeps some elements of [l2], in the order of [l2]. *)
Inductive Subsequence {A : Type} : list A -> list A -> Prop :=
| Subsequence_nil : Subsequence [] []
| Subsequence_skip (x : A) (l1 l2 : list A) :
    Subsequence l1 l2 -> Subsequence l1 (x :: l2)
| Subsequence_keep (x : A) (l1 l2 : list A) :
    Subsequence l1 l2 -> Subsequence (x :: l1) (x :: l2).

(** Section 4.2: the three tests on the lower-cased text and keyword. *)
Definition relevant (text keyword : string) : Prop :=
  let textLower := toLowerCase text in
  let keywordLower := toLowerCase keyword in
  Substring keywordLower textLower
  \/ Substring (replace_ws keywordLower) textLower
  \/ exists token,
       In token (split_ws textLower)
       /\ (Substring token keywordLower \/ Substring keywordLower token).

(** Section 4.1: a token counts when it contains one of the markers. *)
Definition containsMarker (markers : list string) (token : string) : bool :=
  existsb (fun marker => includes token marker) markers.

Definition countTokens (markers tokens : list string) : Z :=
  Z.of_nat (List.length (filter (containsMarker markers) tokens)).

Definition sentiment (text : string) : option Z :=
  let tokens := split_ws (toLowerCase text) in
  let positive := countTokens Ai.positiveWords tokens in
  let negative := countTokens Ai.negativeWords tokens in
  if (positive =? 0) && (negative =? 0) then Some 75
  else Number.percent positive (positive + negative).

(** Section 4.3: the three bonuses and the clamp. *)
Definition lengthBonus (text : string) : Z :=
  Z.min 20 (Z.of_nat (String.length text) / 100).

Definition speedBonus (responseTime : Z) : Z :=
  if responseTime <? 3000 then 10
  else if responseTime <? 5000 then 5
  else 0.

Definition clamp (z : Z) : Z := Z.min 100 (Z.max 0 z).

(** The number of positions of [s] at which [word] occurs. *)
Fixpoint occurrences (s word : string) : nat :=
  (if startsWith s word then 1 else 0)
  + match s with
    | EmptyString => 0
    | String _ s' => occurrences s' word
    end.

(** The content-quality bonus as section 4.3 words it: 2 for each
    occurrence of a quality word. *)
Definition qualityBonusPerOccurrence (text : string) : Z :=
  2 * Z.of_nat
        (list_sum (map (occurrences (toLowerCase text)) Ai.qualityWords)).

(** The content-quality bonus of the code: 2 for each quality word that
    occurs, however often. *)
Definition qualityBonusPerWord (text : string) : Z :=
  2 * Z.of_nat
        (List.length
           (filter (fun word => 0 <? occurrences (toLowerCase text) word)%nat
                   Ai.qualityWords)).

Definition performance (qualityBonus : string -> Z)
  (text : string) (sentimentScore responseTime : Z) : Z :=
  clamp (sentimentScore + lengthBonus text + speedBonus responseTime
         + qualityBonus text).

(** The sum over the pieces of a split of their lengths, each piece with
    the separator that ends it. *)
Definition piecesWeight (pieces : list string) : nat :=
  list_sum (map (fun piece => S (String.length piece)) pieces).

End Spec.

(** ** The two analysis engines of [ai.ts] *)

Module Engines.
Import JS Ai.

(** [AIAnalysisResult].  A score is [Some z] when the Number is the
    integer [z], and [None] when it is NaN. *)
Record AIAnalysisResult : Type := {
  response : string;
  sentimentScore : option Z;
  responseTime : Z;
  keywordRelevance : list string;
  performanceScore : option Z
}.

(** [Array.prototype.slice(start, end)] with indices inside the array or
    beyond its end, and [Array.prototype.join] on an array of strings. *)
Definition slice {A : Type} (l : list A) (start stop : nat) : list A :=
  firstn (stop - start) (skipn start l).

Definition join (l : list string) (separator : string) : string :=
  String.concat separator l.

(** The template literal of [analyzeWithGemini]. *)
Definition simulatedResponse (keywords : list string) : string :=
  "Gemini Analysis: Based on the provided prompt, here are the key insights and recommendations. The analysis suggests strong potential for market positioning and user engagement strategies. Keywords like "
  ++ join (slice keywords 0 2) ", "
  ++ " show high relevance for strategic implementation.".

(** The three scores both engines derive from the response text.  A NaN
    sentiment score makes the performance score NaN. *)
Definition scoresOf
  (responseContent : string) (keywords : list string) (responseTime : Z)
  : AIAnalysisResult :=
  let sentimentScore := calculateSentimentScore responseContent in
  let keywordRelevance := analyzeKeywordRelevance responseContent keywords in
  let performanceScore :=
    option_map
      (fun sentiment =>
         calculatePerformanceScore responseContent sentiment responseTime)
      sentimentScore in
  {| response := responseContent;
     sentimentScore := sentimentScore;
     responseTime := responseTime;
     keywordRelevance := keywordRelevance;
     performanceScore := performanceScore |}.

(** [analyzeWithGemini]: [responseTime] is the measured
    [Date.now () - startTime], after the simulated call. *)
Definition analyzeWithGemini
  (promptContent : string) (keywords : list string) (responseTime : Z)
  : AIAnalysisResult :=
  scoresOf (simulatedResponse keywords) keywords responseTime.

(** What the awaited [openai.chat.completions.create] gave: a completion
    whose first choice has the content [content] ([None] for null), or an
    error thrown with [message]. *)
Inductive completion : Type :=
| Completed (content : option string)
| Threw (message : string).

(** A promise that resolves with a value or rejects with an [Error] of
    the given message. *)
Inductive outcome (A : Type) : Type :=
| Resolved (a : A)
| Rejected (message : string).
Arguments Resolved {A} a.
Arguments Rejected {A} message.

Definition analyzeWithOpenAI
  (promptContent : string) (keywords : list string)
  (reply : completion) (responseTime : Z) : outcome AIAnalysisResult :=
  match reply with
  | Completed content =>
      (* response.choices[0].message.content || "" *)
      let responseContent :=
        match content with
        | Some text => text
        | None => EmptyString
        end in
      Resolved (scoresOf responseContent keywords responseTime)
  | Threw message => Rejected ("OpenAI analysis failed: " ++ message)
  end.

End Engines.

(** ** Arrays: [sort] *)

Module JSArray.

(** [Array.prototype.sort(comparefn)].  ECMAScript requires the sort to
    be stable, and with a consistent [comparefn] the result is the one
    stable sorted arrangement of the array, whatever the algorithm: the
    insertion of each element, from the last to the first, before the
    first element it does not follow.  A NaN result of [comparefn] counts
    as 0; the comparators here return integers. *)
Fixpoint insertSorted {A : Type}
  (comparefn : A -> A -> Z) (x : A) (sorted : list A) : list A :=
  match sorted with
  | [] => [x]
  | y :: rest =>
      if comparefn x y <=? 0 then x :: sorted
      else y :: insertSorted comparefn x rest
  end.

Definition sort {A : Type} (l : list A) (comparefn : A -> A -> Z) : list A :=
  fold_right (insertSorted comparefn) [] l.

(** [a] may stand before [b]: [comparefn (a, b)] is not positive. *)
Definition before {A : Type} (comparefn : A -> A -> Z) (a b : A) : Prop :=
  comparefn a b <= 0.

(** [Array.prototype.includes] on an array of strings. *)
Definition includes (l : list string) (searchElement : string) : bool :=
  existsb (String.eqb searchElement) l.

(** A [for ... of] loop whose body computes one element to [push], or
    leaves the function with a value that is no integer ([None]). *)
Fixpoint forOfPush {A B : Type} (f : A -> option B) (l : list A)
  : option (list B) :=
  match l with
  | [] => Some []
  | x :: rest =>
      match f x, forOfPush f rest with
      | Some y, Some ys => Some (y :: ys)
      | _, _ => None
      end
  end.

End JSArray.

(** ** The analytics of the storage layer ([PostgreSQLStorage]) *)

Module Storage.
Import JS.

(** A row of the table [keywords] ([createdAt] is not read here). *)
Record Keyword : Type := {
  keywordId : Z;
  keywordDomainId : Z;
  value : string
}.

(** A nullable [integer] column is [None] for null.  A Number is truthy
    when it is neither null nor 0. *)
Definition truthy (v : option Z) : bool :=
  match v with
  | Some z => negb (z =? 0)
  | None => false
  end.

Definition valueOr0 (v : option Z) : Z :=
  match v with
  | Some z => z
  | None => 0
  end.

(** [Math.round(total / count)] on integer Numbers: [None] when the
    result is no integer (NaN or infinite). *)
Definition roundedMean (total count : Z) : option Z :=
  Number.Math_round (Number.div (Number.ofZ total) (Number.ofZ count)).

(** *** [getKeywordRankings] *)

(** The columns selected from [analyses] for the mentions. *)
Record MentionRow : Type := {
  sentimentScore : option Z;
  performanceScore : option Z;
  keywordRelevance : option (list string)
}.

Record Ranking : Type := {
  keyword : string;
  totalMentions : Z;
  avgSentimentScore : Z;
  avgPerformanceScore : Z
}.

(** The [if] of the inner loop: the analysis names the keyword. *)
Definition mentions (keywordValue : string) (result : MentionRow) : bool :=
  match keywordRelevance result with
  | Some relevance => JSArray.includes relevance keywordValue
  | None => false
  end.

(** One turn of the inner loop, on the counters
    [(totalMentions, totalSentiment, totalPerformance, mentionCount)].
    The counters are integers: the sums of [integer] columns are exact
    Numbers as long as they stay below [2 ^ 53] in size. *)
Definition countMention (keywordValue : string)
  (counters : Z * Z * Z * Z) (result : MentionRow) : Z * Z * Z * Z :=
  let '(totalMentions, totalSentiment, totalPerformance, mentionCount) :=
    counters in
  if mentions keywordValue result then
    let totalMentions := totalMentions + 1 in
    let '(totalSentiment, mentionCount) :=
      if truthy (sentimentScore result)
      then (totalSentiment + valueOr0 (sentimentScore result),
            mentionCount + 1)
      else (totalSentiment, mentionCount) in
    let totalPerformance :=
      if truthy (performanceScore result)
      then totalPerformance + valueOr0 (performanceScore result)
      else totalPerformance in
    (totalMentions, totalSentiment, totalPerformance, mentionCount)
  else counters.

(** The four counters after the inner loop over [mentionResults]. *)
Definition countMentions (keywordValue : string) (mentionResults : list MentionRow)
  : Z * Z * Z * Z :=
  forEach mentionResults (countMention keywordValue) (0, 0, 0, 0).

(** The body of the outer loop: the entry pushed for one keyword. *)
Definition rankingOf (keywordValue : string) (mentionResults : list MentionRow)
  : option Ranking :=
  let '(totalMentions, totalSentiment, totalPerformance, mentionCount) :=
    countMentions keywordValue mentionResults in
  match (if 0 <? mentionCount
         then roundedMean totalSentiment mentionCount else Some 0),
        (if 0 <? totalMentions
         then roundedMean totalPerformance totalMentions else Some 0)
  with
  | Some avgSentiment, Some avgPerformance =>
      Some {| keyword := keywordValue;
              totalMentions := totalMentions;
              avgSentimentScore := avgSentiment;
              avgPerformanceScore := avgPerformance |}
  | _, _ => None
  end.

(** The comparator of the final [sort]. *)
Definition compareRankings (a b : Ranking) : Z :=
  if negb (totalMentions b =? totalMentions a)
  then totalMentions b - totalMentions a
  else avgPerformanceScore b - avgPerformanceScore a.

(** [getKeywordRankings]: [domainKeywords] is what [getKeywordsByDomain]
    returned, and [mentionResults keyword] what the query on [analyses]
    returned in the loop turn of [keyword]. *)
Definition getKeywordRankings
  (domainKeywords : list Keyword) (mentionResults : Keyword -> list MentionRow)
  : option (list Ranking) :=
  match JSArray.forOfPush
          (fun keyword => rankingOf (value keyword) (mentionResults keyword))
          domainKeywords
  with
  | Some rankings => Some (JSArray.sort rankings compareRankings)
  | None => None
  end.

(** The order of the rankings: more mentions first, and among equal
    mentions the higher average performance first. *)
Definition ranksBefore (a b : Ranking) : Prop :=
  totalMentions b < totalMentions a
  \/ (totalMentions a = totalMentions b
      /\ avgPerformanceScore b <= avgPerformanceScore a).

(** *** The rows the application writes *)

(** An array has at most [2 ^ 32 - 1] elements (ECMAScript). *)
Definition maxArrayLength : Z := 2 ^ 32 - 1.

(** A score that is null or one of 0 to 100, as the scoring helpers
    return them. *)
Definition scoreInRange (v : option Z) : Prop :=
  match v with
  | Some z => 0 <= z <= 100
  | None => True
  end.

Definition validMentionRows (rows : list MentionRow) : Prop :=
  Z.of_nat (List.length rows) <= maxArrayLength
  /\ Forall (fun row => scoreInRange (sentimentScore row)
                        /\ scoreInRange (performanceScore row)) rows.

(** The sum of [f] over the rows. *)
Definition sumOver {A : Type} (f : A -> Z) (rows : list A) : Z :=
  fold_right (fun row acc => f row + acc) 0 rows.

(** The value a nullable score adds to its total. *)
Definition contribution (v : option Z) : Z :=
  if truthy v then valueOr0 v else 0.

End Storage.

(** *** [getDomainPerformanceByEngine] *)

Module PerformanceByEngine.
Import JS Storage.

(** The columns selected from [analyses]. *)
Record AnalysisRow : Type := {
  engine : string;
  sentimentScore : option Z;
  performanceScore : option Z;
  responseTime : option Z
}.

Record EngineStats : Type := {
  totalSentiment : Z;
  totalPerformance : Z;
  totalResponseTime : Z;
  count : Z
}.

(** The object [engineStats], a map from engine names to their stats, as
    the list of its own entries in the order the keys were added.  (This
    is the order of [Object.entries] for keys that are no array indices;
    the routes write the engines "openai" and "gemini".) *)
Definition statsByEngine : Type := list (string * EngineStats).

(** The properties [engineStats], created as [{}], inherits from
    [Object.prototype] (ECMAScript, with its Annex B): at these keys
    [engineStats[key]] is a function, or the prototype itself, and so
    truthy, although the object has no stats of its own there. *)
Definition inheritedKeys : list string :=
  [ "constructor"; "hasOwnProperty"; "isPrototypeOf";
    "propertyIsEnumerable"; "toLocaleString"; "toString"; "valueOf";
    "__proto__"; "__defineGetter__"; "__defineSetter__";
    "__lookupGetter__"; "__lookupSetter__" ].

Definition inherited (key : string) : bool :=
  existsb (String.eqb key) inheritedKeys.

(** The own property [key] of [engineStats]. *)
Fixpoint get (engineStats : statsByEngine) (key : string) : option EngineStats :=
  match engineStats with
  | [] => None
  | (k, stats) :: rest => if String.eqb k key then Some stats else get rest key
  end.

(** The stats object of [key] is updated in place. *)
Definition update (key : string) (f : EngineStats -> EngineStats)
  (engineStats : statsByEngine) : statsByEngine :=
  map (fun '(k, stats) => if String.eqb k key then (k, f stats) else (k, stats))
      engineStats.

(** The updates of one row on the stats of its engine. *)
Definition addResult (result : AnalysisRow) (stats : EngineStats) : EngineStats :=
  {| count := count stats + 1;
     totalSentiment :=
       if truthy (sentimentScore result)
       then totalSentiment stats + valueOr0 (sentimentScore result)
       else totalSentiment stats;
     totalPerformance :=
       if truthy (performanceScore result)
       then totalPerformance stats + valueOr0 (performanceScore result)
       else totalPerformance stats;
     totalResponseTime :=
       if truthy (responseTime result)
       then totalResponseTime stats + valueOr0 (responseTime result)
       else totalResponseTime stats |}.

(** The callback of [results.forEach].  At an inherited key the test
    [!engineStats[result.engine]] fails, [stats] is the inherited value,
    and the updates go to that value ([count] and the totals become NaN
    properties of it, which are falsy and hide no later key):
    [engineStats] gets no entry and keeps the ones it has. *)
Definition recordResult (engineStats : statsByEngine) (result : AnalysisRow)
  : statsByEngine :=
  if inherited (engine result) then engineStats
  else
    let engineStats :=
      match get engineStats (engine result) with
      | None =>
          (engineStats
           ++ [(engine result,
                {| totalSentiment := 0; totalPerformance := 0;
                   totalResponseTime := 0; count := 0 |})])%list
      | Some _ => engineStats
      end in
    update (engine result) (addResult result) engineStats.

Module Entry.
Record t : Type := {
  engine : string;
  avgSentimentScore : Z;
  avgPerformanceScore : Z;
  avgResponseTime : Z;
  totalAnalyses : Z
}.
End Entry.

Definition average (total count : Z) : option Z :=
  if 0 <? count then roundedMean total count else Some 0.

(** The callback of [Object.entries (engineStats).map]: [None] when an
    average is no integer. *)
Definition entryOf (entry : string * EngineStats) : option Entry.t :=
  let '(engine, stats) := entry in
  match average (totalSentiment stats) (count stats),
        average (totalPerformance stats) (count stats),
        average (totalResponseTime stats) (count stats)
  with
  | Some avgSentiment, Some avgPerformance, Some avgTime =>
      Some {| Entry.engine := engine;
              Entry.avgSentimentScore := avgSentiment;
              Entry.avgPerformanceScore := avgPerformance;
              Entry.avgResponseTime := avgTime;
              Entry.totalAnalyses := count stats |}
  | _, _, _ => None
  end.

(** [getDomainPerformanceByEngine]: [results] is what the query on
    [analyses] returned. *)
Definition getDomainPerformanceByEngine (results : list AnalysisRow)
  : option (list Entry.t) :=
  let engineStats := forEach results recordResult [] in
  JSArray.forOfPush entryOf engineStats.

(** The rows of [engine] among the results. *)
Definition rowsOf (engineName : string) (results : list AnalysisRow)
  : list AnalysisRow :=
  filter (fun result => String.eqb (engine result) engineName) results.

(** The rows that reach [engineStats]: those whose engine is no
    inherited key. *)
Definition ownRows (results : list AnalysisRow) : list AnalysisRow :=
  filter (fun result => negb (inherited (engine result))) results.

(** The stats of [engine] in closed form. *)
Definition statsOf (engineName : string) (results : list AnalysisRow)
  : EngineStats :=
  {| totalSentiment :=
       sumOver (fun row => contribution (sentimentScore row))
         (rowsOf engineName results);
     totalPerformance :=
       sumOver (fun row => contribution (performanceScore row))
         (rowsOf engineName results);
     totalResponseTime :=
       sumOver (fun row => contribution (responseTime row))
         (rowsOf engineName results);
     count := Z.of_nat (List.length (rowsOf engineName results)) |}.

(** Rows the application wrote: scores null or from 0 to 100, response
    times null or from 0 to [maxTime], in an array. *)
Definition validRow (maxTime : Z) (row : AnalysisRow) : Prop :=
  scoreInRange (sentimentScore row)
  /\ scoreInRange (performanceScore row)
  /\ match responseTime row with
     | Some ms => 0 <= ms <= maxTime
     | None => True
     end.

(** What [engineStats] holds after the rows [results]: one entry for each
    engine of the rows, with the stats of its rows. *)
Definition holds (results : list AnalysisRow) (engineStats : statsByEngine)
  : Prop :=
  NoDup (map fst engineStats)
  /\ (forall k, In k (map fst engineStats) <-> In k (map engine results))
  /\ (forall k stats, In (k, stats) engineStats -> stats = statsOf k results).

End PerformanceByEngine.

(** ** Regular expressions: [RegExp.prototype.test] *)

Module RegExp.

(** The patterns used: character classes, sequence, [r*], and what their
    derivatives need (the empty pattern, choice, the pattern that matches
    nothing). *)
Inductive regex : Type :=
| Nothing
| Eps
| Class (accepts : ascii -> bool)
| Seq (r1 r2 : regex)
| Alt (r1 r2 : regex)
| Star (r : regex).

(** [r{n,}]. *)
Fixpoint atLeast (n : nat) (r : regex) : regex :=
  match n with
  | O => Star r
  | S n' => Seq r (atLeast n' r)
  end.

(** The strings a pattern matches from its first to its last character. *)
Inductive Matches : regex -> string -> Prop :=
| Matches_Eps : Matches Eps EmptyString
| Matches_Class (accepts : ascii -> bool) (c : ascii) :
    accepts c = true -> Matches (Class accepts) (String c EmptyString)
| Matches_Seq (r1 r2 : regex) (s1 s2 : string) :
    Matches r1 s1 -> Matches r2 s2 -> Matches (Seq r1 r2) (s1 ++ s2)
| Matches_Alt_l (r1 r2 : regex) (s : string) :
    Matches r1 s -> Matches (Alt r1 r2) s
| Matches_Alt_r (r1 r2 : regex) (s : string) :
    Matches r2 s -> Matches (Alt r1 r2) s
| Matches_Star_nil (r : regex) : Matches (Star r) EmptyString
| Matches_Star_app (r : regex) (s1 s2 : string) :
    Matches r s1 -> Matches (Star r) s2 -> Matches (Star r) (s1 ++ s2).

(** The pattern matches the empty string. *)
Fixpoint nullable (r : regex) : bool :=
  match r with
  | Nothing => false
  | Eps => true
  | Class _ => false
  | Seq r1 r2 => nullable r1 && nullable r2
  | Alt r1 r2 => nullable r1 || nullable r2
  | Star _ => true
  end.

(** What is left of the pattern after the character [c]. *)
Fixpoint derivative (c : ascii) (r : regex) : regex :=
  match r with
  | Nothing => Nothing
  | Eps => Nothing
  | Class accepts => if accepts c then Eps else Nothing
  | Seq r1 r2 =>
      if nullable r1
      then Alt (Seq (derivative c r1) r2) (derivative c r2)
      else Seq (derivative c r1) r2
  | Alt r1 r2 => Alt (derivative c r1) (derivative c r2)
  | Star r' => Seq (derivative c r') (Star r')
  end.

(** [/^r$/.test(s)]: the search of the matcher is exhaustive, so the test
    succeeds exactly when some way of matching [r] spans the string. *)
Fixpoint test (r : regex) (s : string) : bool :=
  match s with
  | EmptyString => nullable r
  | String c s' => test (derivative c r) s'
  end.

End RegExp.

(** ** The client: validation and display helpers *)

Module Client.
Import RegExp.

Definition inRange (lo hi c : ascii) : bool :=
  ((nat_of_ascii lo <=? nat_of_ascii c)
   && (nat_of_ascii c <=? nat_of_ascii hi))%nat.

(** [[a-zA-Z]], [[a-zA-Z0-9]] and [[a-zA-Z0-9-]]. *)
Definition isLetter (c : ascii) : bool :=
  inRange "a" "z" c || inRange "A" "Z" c.

Definition isAlnum (c : ascii) : bool :=
  isLetter c || inRange "0" "9" c.

Definition isAlnumOrHyphen (c : ascii) : bool :=
  isAlnum c || Ascii.eqb c "-".

(** [/^[a-zA-Z0-9][a-zA-Z0-9-]*[a-zA-Z0-9]*\.[a-zA-Z]{2,}$/] *)
Definition domainRegex : regex :=
  Seq (Class isAlnum)
    (Seq (Star (Class isAlnumOrHyphen))
       (Seq (Star (Class isAlnum))
          (Seq (Class (Ascii.eqb "."))
             (atLeast 2 (Class isLetter))))).

Definition validateDomain (domain : string) : bool :=
  test domainRegex domain.

(** Every character of the string is accepted. *)
Fixpoint every (accepts : ascii -> bool) (s : string) : bool :=
  match s with
  | EmptyString => true
  | String c s' => accepts c && every accepts s'
  end.

(** [getPerformanceColor] of the keyword rankings, on integer scores. *)
Definition getPerformanceColor (score : Z) : string :=
  if 80 <=? score then "bg-green-500"
  else if 60 <=? score then "bg-yellow-500"
  else "bg-red-500".

(** [getPerformanceGrade] of the engine performance. *)
Record PerformanceGrade : Type := { grade : string; color : string }.

Definition getPerformanceGrade (score : Z) : PerformanceGrade :=
  if 90 <=? score then {| grade := "A+"; color := "text-green-600" |}
  else if 80 <=? score then {| grade := "A"; color := "text-green-600" |}
  else if 70 <=? score then {| grade := "B"; color := "text-yellow-600" |}
  else if 60 <=? score then {| grade := "C"; color := "text-orange-600" |}
  else {| grade := "D"; color := "text-red-600" |}.


(** [sortedPerformance] of the engine performance, for the entries the
    server sent ([x || 0] is [x] on a Number that is an integer). *)
Definition sortedPerformance (performance : list PerformanceByEngine.Entry.t)
  : list PerformanceByEngine.Entry.t :=
  if (0 <? List.length performance)%nat
  then JSArray.sort performance
         (fun a b =>
            PerformanceByEngine.Entry.avgPerformanceScore b
            - PerformanceByEngine.Entry.avgPerformanceScore a)
  else [].

End Client.

(** ** The storage layer: domains and keywords

    The database is the state: the rows of the tables [domains] and
    [keywords], in some order (SQL fixes none, and nothing below depends
    on it), and the last value of the sequence behind the [serial] column
    [keywords.id].  [where (eq (column, v))] keeps the rows whose column is
    [v], [insert] adds a row with the next value of the sequence,
    [update] and [delete] change or remove the rows of the [where], and
    [returning ()] gives the rows inserted, changed or removed.  The
    table [keywords] has no foreign key, so an insert does not depend on
    the domains; the sequence is taken as unbounded (it ends at
    [2 ^ 31 - 1], where an insert fails). *)

Module Database.
Import Storage.















End Database.

(** ** Bounds on rounded binary64 results

    The rounding function [binary_round_aux] never leaves an interval
    whose ends lie on the binary grid it rounds to.  This is all the
    scoring code needs of binary64 arithmetic: the quotient of two counts
    stays in [0, 1], its product by 100 in [0, 100]. *)

Module NumberFacts.
Import Number.

Lemma digits2_pos_bounds (p : positive) :
  2 ^ (Z.pos (digits2_pos p) - 1) <= Z.pos p < 2 ^ Z.pos (digits2_pos p).
Proof.
  induction p as [p IH | p IH | ]; cbn [digits2_pos].
  - rewrite Pos2Z.inj_succ, Z.pow_succ_r by lia.
    replace (Z.succ (Z.pos (digits2_pos p)) - 1)
      with (Z.succ (Z.pos (digits2_pos p) - 1)) by lia.
    rewrite Z.pow_succ_r by lia. lia.
  - rewrite Pos2Z.inj_succ, Z.pow_succ_r by lia.
    replace (Z.succ (Z.pos (digits2_pos p)) - 1)
      with (Z.succ (Z.pos (digits2_pos p) - 1)) by lia.
    rewrite Z.pow_succ_r by lia. lia.
  - cbn. lia.
Qed.

Lemma Zdigits2_upper (m : Z) : 0 <= m -> m < 2 ^ Zdigits2 m \/ m = 0.
Proof.
  destruct m as [ | p | p]; intros Hm; try lia.
  left. cbn [Zdigits2]. apply digits2_pos_bounds.
Qed.

Lemma Zdigits2_lower (m : Z) : 0 < m -> 2 ^ (Zdigits2 m - 1) <= m.
Proof.
  destruct m as [ | p | p]; intros Hm; try lia.
  cbn [Zdigits2]. apply digits2_pos_bounds.
Qed.

(** From [2 ^ a <= x < 2 ^ b] the exponents are ordered. *)
Lemma pow2_lt_exponent (a b : Z) : 0 <= b -> 2 ^ a < 2 ^ b -> a < b.
Proof.
  intros Hb H. destruct (Z_lt_le_dec a b) as [ | Hle]; [assumption | ].
  exfalso. assert (2 ^ b <= 2 ^ a) by (apply Z.pow_le_mono_r; lia). lia.
Qed.

(** *** Shifting a mantissa to the right *)

Lemma shr_1_spec (mrs : shr_record) :
  0 <= shr_m mrs ->
  shr_m (shr_1 mrs) = shr_m mrs / 2
  /\ shr_r (shr_1 mrs) = Z.odd (shr_m mrs)
  /\ shr_s (shr_1 mrs) = shr_r mrs || shr_s mrs.
Proof.
  destruct mrs as [m r s]; cbn [shr_m shr_r shr_s]. intros Hm.
  rewrite <- Z.div2_div.
  destruct m as [ | [p | p | ] | p]; try lia; cbn; auto.
Qed.

Lemma shifted_one (x : shr_record) : shifted 1 x (shr_1 x).
Proof.
  intros Hm. destruct (shr_1_spec x Hm) as (Hq & Hr & Hs).
  change (2 ^ 1) with 2. split; [assumption | ].
  intros Hrx Hsx Hmod. rewrite Hr, Hs, Hrx, Hsx. split; [ | reflexivity].
  rewrite <- Z.negb_even, Bool.negb_false_iff. apply Z.even_spec.
  exists (shr_m x / 2). pose proof (Z.div_mod (shr_m x) 2). lia.
Qed.

Lemma shifted_trans (j k : Z) (x y z : shr_record) :
  0 <= j -> 0 <= k -> shifted j x y -> shifted k y z -> shifted (j + k) x z.
Proof.
  intros Hj Hk Hxy Hyz Hm.
  destruct (Hxy Hm) as (Hy & Hey).
  assert (Hpj : 0 < 2 ^ j) by (apply Z.pow_pos_nonneg; lia).
  assert (Hpk : 0 < 2 ^ k) by (apply Z.pow_pos_nonneg; lia).
  assert (Hmy : 0 <= shr_m y) by (rewrite Hy; apply Z.div_pos; lia).
  destruct (Hyz Hmy) as (Hz & Hez).
  rewrite Z.pow_add_r by lia. split.
  - rewrite Hz, Hy, Z.div_div by lia. reflexivity.
  - intros Hr Hs Hmod.
    apply Z.mod_divide in Hmod; [ | lia]. destruct Hmod as [q Hq].
    assert (Hxj : shr_m x mod 2 ^ j = 0).
    { apply Z.mod_divide; [lia | ]. exists (q * 2 ^ k). lia. }
    destruct (Hey Hr Hs Hxj) as (Hry & Hsy).
    apply Hez; try assumption.
    rewrite Hy. apply Z.mod_divide; [lia | ]. exists q.
    replace (shr_m x) with (q * 2 ^ k * 2 ^ j) by lia.
    apply Z.div_mul. lia.
Qed.

Lemma iter_pos_shifted (n : positive) :
  forall x, shifted (Z.pos n) x (iter_pos shr_1 n x).
Proof.
  induction n as [n IH | n IH | ]; intros x; cbn [iter_pos].
  - replace (Z.pos n~1) with (1 + (Z.pos n + Z.pos n)) by lia.
    apply shifted_trans with (y := shr_1 x); try lia.
    + apply shifted_one.
    + apply shifted_trans with (y := iter_pos shr_1 n (shr_1 x));
        try lia; apply IH.
  - replace (Z.pos n~0) with (Z.pos n + Z.pos n) by lia.
    apply shifted_trans with (y := iter_pos shr_1 n x); try lia; apply IH.
  - apply shifted_one.
Qed.

Lemma loc_of_shr_record_of_loc (m : Z) (l : location) :
  loc_of_shr_record (shr_record_of_loc m l) = l
  /\ shr_m (shr_record_of_loc m l) = m.
Proof. destruct l as [ | [ | | ]]; split; reflexivity. Qed.

Lemma loc_Exact_bits (mrs : shr_record) :
  shr_r mrs = false -> shr_s mrs = false -> loc_of_shr_record mrs = loc_Exact.
Proof. destruct mrs as [m r s]; cbn; intros -> ->; reflexivity. Qed.

Lemma bits_of_loc_Exact (m : Z) :
  shr_r (shr_record_of_loc m loc_Exact) = false
  /\ shr_s (shr_record_of_loc m loc_Exact) = false.
Proof. split; reflexivity. Qed.

(** *** Rounding inside an interval of the grid

    [KL * 2 ^ c] and [KU * 2 ^ c] are the ends of the interval, [c] an
    exponent of the format and [KU] a mantissa of at most [prec] bits. *)

Section Between.

Variables KL KU c : Z.
Hypothesis KU_fits : KU < 2 ^ prec.
Hypothesis c_exponent : emin prec emax <= c <= emax - prec.

Lemma fexp_le_c (m e : Z) :
  0 <= m -> e <= c -> m <= KU * 2 ^ (c - e) ->
  fexp prec emax (Zdigits2 m + e) <= c.
Proof.
  intros Hm He Hu. unfold fexp. apply Z.max_lub; [ | apply c_exponent].
  destruct (Z.eq_dec m 0) as [-> | Hne].
  - cbn [Zdigits2]. unfold prec. lia.
  - pose proof (Zdigits2_lower m ltac:(lia)) as Hd.
    assert (Hp : 0 < 2 ^ (c - e)) by (apply Z.pow_pos_nonneg; lia).
    assert (Hlt : 2 ^ (Zdigits2 m - 1) < 2 ^ (prec + (c - e))).
    { rewrite Z.pow_add_r by (unfold prec; lia). nia. }
    apply pow2_lt_exponent in Hlt; [lia | unfold prec; lia].
Qed.

Lemma shr_fexp_within (m e : Z) (l : location) :
  within KL KU c l m e ->
  within KL KU c (loc_of_shr_record (fst (shr_fexp prec emax m e l)))
         (shr_m (fst (shr_fexp prec emax m e l)))
         (snd (shr_fexp prec emax m e l)).
Proof.
  intros (Hm & He & (Hlo & Hup) & Hstrict).
  pose proof (fexp_le_c m e Hm He Hup) as Hf.
  destruct (loc_of_shr_record_of_loc m l) as (Hloc & Hrec).
  unfold shr_fexp, shr.
  destruct (fexp prec emax (Zdigits2 m + e) - e) as [ | n | n] eqn:Hn;
    cbn [fst snd].
  - rewrite Hloc, Hrec. repeat split; assumption.
  - pose proof (iter_pos_shifted n (shr_record_of_loc m l)) as Hsh.
    rewrite <- Hn. unfold shifted in Hsh. rewrite Hrec, <- Hn in Hsh.
    destruct (Hsh Hm) as (Hq & Hex).
    set (e' := fexp prec emax (Zdigits2 m + e)) in *.
    set (k := e' - e) in *.
    assert (Hk : 0 < k) by lia.
    replace (e + k) with e' by lia.
    assert (HN : 0 < 2 ^ k) by (apply Z.pow_pos_nonneg; lia).
    assert (HP : 0 < 2 ^ (c - e')) by (apply Z.pow_pos_nonneg; lia).
    assert (Hsplit : 2 ^ (c - e) = 2 ^ (c - e') * 2 ^ k).
    { rewrite <- Z.pow_add_r by lia. f_equal. lia. }
    rewrite Hsplit in Hlo, Hup, Hstrict.
    rewrite Hq. split; [apply Z.div_pos; lia | ].
    split; [assumption | ]. split; [split | ].
    + apply Z.div_le_lower_bound; [lia | nia].
    + apply Z.div_le_upper_bound; [lia | nia].
    + intros Hinexact.
      destruct (Z.eq_dec m (KU * (2 ^ (c - e') * 2 ^ k))) as [Heq | Hne].
      * exfalso. apply Hinexact.
        assert (Hl : l = loc_Exact).
        { destruct l as [ | cmp]; [reflexivity | ].
          exfalso. assert (loc_Inexact cmp <> loc_Exact) as Hd by discriminate.
          specialize (Hstrict Hd). lia. }
        subst l. destruct (bits_of_loc_Exact m) as (Hr & Hs).
        destruct (Hex Hr Hs) as (Hr' & Hs').
        { apply Z.mod_divide; [lia | ]. exists (KU * 2 ^ (c - e')). lia. }
        apply loc_Exact_bits; assumption.
      * apply Z.div_lt_upper_bound; [lia | nia].
  - rewrite Hloc, Hrec. repeat split; assumption.
Qed.

Lemma round_nearest_even_within (m e : Z) (l : location) :
  within KL KU c l m e -> within KL KU c loc_Exact (round_nearest_even m l) e.
Proof.
  intros (Hm & He & (Hlo & Hup) & Hstrict).
  assert (Hcases : round_nearest_even m l = m
                   \/ (round_nearest_even m l = m + 1 /\ l <> loc_Exact)).
  { destruct l as [ | [ | | ]]; cbn; auto.
    - destruct (Z.even m); [left | right; split]; auto; discriminate.
    - right; split; auto; discriminate. }
  assert (Hexact : forall z : Z, loc_Exact <> loc_Exact -> z < KU * 2 ^ (c - e))
    by (intros z Hz; exfalso; apply Hz; reflexivity).
  destruct Hcases as [-> | (-> & Hl)].
  - repeat split; solve [assumption | apply Hexact].
  - specialize (Hstrict Hl). repeat split; solve [lia | apply Hexact].
Qed.

Theorem binary_round_aux_between (m e : Z) (l : location) :
  within KL KU c l m e -> between KL KU c (binary_round_aux prec emax false m e l).
Proof.
  intros Hw. unfold binary_round_aux.
  apply shr_fexp_within in Hw.
  destruct (shr_fexp prec emax m e l) as [mrs' e'] eqn:H1. cbn [fst snd] in Hw.
  apply round_nearest_even_within in Hw.
  apply shr_fexp_within in Hw.
  destruct (shr_fexp prec emax _ e' loc_Exact) as [mrs'' e''] eqn:H2.
  cbn [fst snd] in Hw. destruct Hw as (Hm & He & (Hlo & Hup) & _).
  destruct (shr_m mrs'') as [ | p | p]; cbn [between]; try lia.
  replace (e'' <=? emax - prec) with true
    by (symmetry; apply Z.leb_le; lia).
  cbn [between]. repeat split; assumption.
Qed.

End Between.

(** *** The operations of [calculateSentimentScore] *)

Lemma binary64_exponents (c : Z) :
  -1074 <= c <= 971 -> emin prec emax <= c <= emax - prec.
Proof. unfold emin, prec, emax. lia. Qed.

Lemma iter_xO_pow2 (q k : positive) :
  Z.pos (Pos.iter xO q k) = Z.pos q * 2 ^ Z.pos k.
Proof.
  induction k as [ | k IH] using Pos.peano_ind.
  - cbn. lia.
  - rewrite Pos.iter_succ, Pos2Z.inj_xO, IH, Pos2Z.inj_succ.
    rewrite Z.pow_succ_r by lia. lia.
Qed.

(** An integer below [2 ^ 53] is a Number, exactly. *)
Lemma ofZ_exact (p : Z) :
  0 < p < 2 ^ 53 -> between p p 0 (ofZ p).
Proof.
  intros Hp. destruct p as [ | q | q]; try lia.
  unfold ofZ, binary_normalize, binary_round.
  pose proof (digits2_pos_bounds q) as Hd.
  assert (Hd53 : Z.pos (digits2_pos q) <= 53).
  { assert (Hlt : 2 ^ (Z.pos (digits2_pos q) - 1) < 2 ^ 53) by lia.
    apply pow2_lt_exponent in Hlt; lia. }
  assert (Hf : fexp prec emax (Z.pos (digits2_pos q) + 0)
               = Z.pos (digits2_pos q) - 53).
  { unfold fexp, emin, prec, emax. lia. }
  rewrite Hf. unfold shl_align.
  destruct (Z.pos (digits2_pos q) - 53 - 0) as [ | k | k] eqn:Hk; try lia.
  - apply binary_round_aux_between;
      [unfold prec; lia | apply binary64_exponents; lia | unfold within].
    change (2 ^ (0 - 0)) with 1.
    repeat split; try lia. intros Hne. exfalso. apply Hne. reflexivity.
  - apply binary_round_aux_between;
      [unfold prec; lia | apply binary64_exponents; lia | unfold within].
    rewrite iter_xO_pow2.
    replace (0 - (Z.pos (digits2_pos q) - 53)) with (Z.pos k) by lia.
    repeat split; try lia. intros Hne. exfalso. apply Hne. reflexivity.
Qed.

Lemma new_location_inexact (n r : Z) :
  new_location n r <> loc_Exact -> r <> 0.
Proof.
  intros Hl ->. apply Hl.
  unfold new_location, new_location_even, new_location_odd.
  destruct (Z.even n); reflexivity.
Qed.

Lemma shifted_dividend (m s : Z) :
  0 <= s ->
  match s with
  | 0 => m
  | Z.pos _ => Z.shiftl m s
  | Z.neg _ => 0
  end = m * 2 ^ s.
Proof.
  intros Hs. destruct s as [ | k | k].
  - change (2 ^ 0) with 1. lia.
  - apply Z.shiftl_mul_pow2. lia.
  - lia.
Qed.

(** The quotient of a Number by a greater one is at most 1, and the
    quotient of a Number by itself ([KL = 1]) is 1. *)
Lemma div_between (KL p t : Z) (x y : number) :
  0 < p <= t -> between p p 0 x -> between t t 0 y ->
  KL = 0 \/ (KL = 1 /\ p = t) ->
  between KL 1 0 (div x y).
Proof.
  intros Hpt Hx Hy HKL.
  destruct x as [ | | | [ | ] m1 e1]; cbn [between] in Hx; try lia.
  destruct y as [ | | | [ | ] m2 e2]; cbn [between] in Hy; try lia.
  destruct Hx as (He1 & Hx1 & Hx2). destruct Hy as (He2 & Hy1 & Hy2).
  assert (Hm1 : Z.pos m1 = p * 2 ^ (0 - e1)) by lia.
  assert (Hm2 : Z.pos m2 = t * 2 ^ (0 - e2)) by lia.
  clear Hx1 Hx2 Hy1 Hy2.
  set (A := 2 ^ (0 - e1)) in *. set (B := 2 ^ (0 - e2)) in *.
  assert (HA : 0 < A) by (apply Z.pow_pos_nonneg; lia).
  assert (HB : 0 < B) by (apply Z.pow_pos_nonneg; lia).
  unfold div, SFdiv, SFdiv_core_binary.
  set (d1 := Zdigits2 (Z.pos m1)). set (d2 := Zdigits2 (Z.pos m2)).
  set (e' := Z.min (fexp prec emax (d1 + e1 - (d2 + e2))) (e1 - e2)).
  set (s := e1 - e2 - e').
  assert (Hs : 0 <= s) by (unfold s, e'; lia).
  (* the estimate of the quotient's magnitude *)
  assert (Hdig : d1 + e1 - (d2 + e2) <= 0).
  { pose proof (digits2_pos_bounds m1) as (Hl1 & _).
    pose proof (digits2_pos_bounds m2) as (_ & Hu2).
    fold (Zdigits2 (Z.pos m1)) in Hl1. fold (Zdigits2 (Z.pos m2)) in Hu2.
    fold d1 in Hl1. fold d2 in Hu2.
    assert (Hd1 : 0 < d1) by (unfold d1; cbn; lia).
    assert (Hd2 : 0 < d2) by (unfold d2; cbn; lia).
    assert (Hlt : 2 ^ (d1 - 1 + (0 - e2)) < 2 ^ (d2 + (0 - e1))).
    { rewrite !Z.pow_add_r by lia. fold A B. nia. }
    apply pow2_lt_exponent in Hlt; lia. }
  assert (He' : e' <= 0).
  { unfold e', fexp, emin, prec, emax. lia. }
  set (C := 2 ^ (0 - e')).
  assert (HC : 0 < C) by (apply Z.pow_pos_nonneg; lia).
  assert (Hscale : 2 ^ s * A = B * C).
  { unfold A, B, C. rewrite <- !Z.pow_add_r by lia. f_equal. unfold s. lia. }
  set (m' := match s with
             | 0 => Z.pos m1
             | Z.pos _ => Z.shiftl (Z.pos m1) s
             | Z.neg _ => 0
             end).
  assert (Hm' : m' = Z.pos m1 * 2 ^ s) by (apply shifted_dividend; assumption).
  clearbody m'.
  pose proof (Z_div_mod m' (Z.pos m2) ltac:(lia)) as Hdm.
  destruct (Z.div_eucl m' (Z.pos m2)) as [q r]. destruct Hdm as (Hqr & Hr).
  change (xorb false false) with false.
  apply binary_round_aux_between;
    [unfold prec; lia | apply binary64_exponents; lia | unfold within].
  fold C.
  assert (Hm'A : m' * A = Z.pos m1 * (B * C)) by (rewrite Hm'; nia).
  assert (Hle : m' <= Z.pos m2 * C) by nia.
  assert (Hq0 : 0 <= q) by nia.
  repeat split; try assumption.
  - destruct HKL as [-> | (-> & ->)]; [lia | ].
    assert (m' = Z.pos m2 * C) by nia. nia.
  - nia.
  - intros Hl. apply new_location_inexact in Hl. nia.
Qed.

Lemma ofZ_100 : ofZ 100 = S754_finite false 7036874417766400 (-46).
Proof. reflexivity. Qed.

(** Multiplying a Number of [[KL, KU]], within [[0, 1]], by 100. *)
Lemma mul_100_between (KL KU : Z) (x : number) :
  0 <= KL -> KU <= 1 -> between KL KU 0 x ->
  between (25 * KL) (25 * KU) 2 (mul x (ofZ 100)).
Proof.
  intros HKL HKU Hx. rewrite ofZ_100.
  destruct x as [sx | | | [ | ] m e]; cbn [between] in Hx; try lia.
  - unfold mul, SFmul. cbn [between]. lia.
  - destruct Hx as (He & Hlo & Hup).
    unfold mul, SFmul. change (xorb false false) with false.
    apply binary_round_aux_between;
      [unfold prec; lia | apply binary64_exponents; lia | unfold within].
    assert (HP : 0 < 2 ^ (0 - e)) by (apply Z.pow_pos_nonneg; lia).
    assert (Hsplit : 2 ^ (2 - (e + -46)) = 2 ^ 48 * 2 ^ (0 - e)).
    { rewrite <- Z.pow_add_r by lia. f_equal. lia. }
    rewrite Hsplit, Pos2Z.inj_mul.
    change (Z.pos 7036874417766400) with (25 * 2 ^ 48).
    assert (0 < 2 ^ 48) by reflexivity.
    repeat split; try lia; try nia.
    intros Hne. exfalso. apply Hne. reflexivity.
Qed.

(** [Math.round] of a Number of [[4 * KL, 4 * KU]] is an integer of that
    interval. *)
Lemma Math_round_between (KL KU : Z) (x : number) :
  0 <= KL -> 0 <= KU -> between KL KU 2 x ->
  exists z, Math_round x = Some z /\ 4 * KL <= z <= 4 * KU.
Proof.
  intros HKL HKU Hx.
  destruct x as [sx | | | [ | ] m e]; cbn [between] in Hx; try lia.
  - exists 0. cbn [Math_round]. split; [reflexivity | lia].
  - destruct Hx as (He & Hlo & Hup). cbn [Math_round].
    destruct (0 <=? e) eqn:Hsign; eexists; (split; [reflexivity | ]).
    + apply Z.leb_le in Hsign.
      assert (Hcases : e = 0 \/ e = 1 \/ e = 2) by lia.
      destruct Hcases as [-> | [-> | ->]].
      * change (2 ^ (2 - 0)) with 4 in Hlo, Hup. change (2 ^ 0) with 1. lia.
      * change (2 ^ (2 - 1)) with 2 in Hlo, Hup. change (2 ^ 1) with 2. lia.
      * change (2 ^ (2 - 2)) with 1 in Hlo, Hup. change (2 ^ 2) with 4. lia.
    + apply Z.leb_gt in Hsign.
      set (D := 2 ^ (- e)).
      assert (HD : 0 < D) by (apply Z.pow_pos_nonneg; lia).
      assert (H1 : 2 ^ (1 - e) = 2 * D).
      { unfold D. rewrite <- Z.pow_succ_r by lia. f_equal. lia. }
      assert (H2 : 2 ^ (2 - e) = 4 * D).
      { unfold D. replace (2 - e) with (2 + - e) by lia.
        rewrite Z.pow_add_r by lia. reflexivity. }
      rewrite H1. rewrite H2 in Hlo, Hup. split.
      * apply Z.div_le_lower_bound; [lia | nia].
      * apply Z.lt_succ_r. apply Z.div_lt_upper_bound; [lia | nia].
Qed.

Lemma percent_between (KL p t : Z) :
  0 < p <= t -> t < 2 ^ 53 -> KL = 0 \/ (KL = 1 /\ p = t) ->
  exists z, percent p t = Some z /\ 100 * KL <= z <= 100.
Proof.
  intros Hpt Ht HKL. unfold percent.
  assert (Hx : between p p 0 (ofZ p)) by (apply ofZ_exact; lia).
  assert (Hy : between t t 0 (ofZ t)) by (apply ofZ_exact; lia).
  pose proof (div_between KL p t _ _ Hpt Hx Hy HKL) as Hq.
  apply mul_100_between in Hq; [ | lia | lia].
  apply Math_round_between in Hq; [ | lia | lia].
  destruct Hq as (z & Hz & Hb). exists z. split; [assumption | lia].
Qed.

(** The quotient and the product are rounded to binary64 before
    [Math.round]: 57 positive words of 200 give 28.499999999999996 and the
    score 28, where the exact 28.5 would round to 29. *)
Example percent_examples :
  percent 1 3 = Some 33 /\ percent 2 3 = Some 67 /\ percent 1 8 = Some 13
  /\ percent 57 200 = Some 28
  /\ mul (div (ofZ 57) (ofZ 200)) (ofZ 100)
     = S754_finite false 8022036836253695 (-48).
Proof. repeat split; reflexivity. Qed.

Lemma percent_zero (t : Z) : 0 < t < 2 ^ 53 -> percent 0 t = Some 0.
Proof.
  intros Ht. unfold percent. change (ofZ 0) with (S754_zero false).
  pose proof (ofZ_exact t Ht) as Hy.
  destruct (ofZ t) as [ | | | [ | ] m e]; cbn [between] in Hy; try lia.
  reflexivity.
Qed.

Theorem percent_range (p t : Z) :
  0 <= p <= t -> 0 < t < 2 ^ 53 ->
  exists z, percent p t = Some z /\ 0 <= z <= 100
            /\ (p = t -> z = 100) /\ (p = 0 -> z = 0).
Proof.
  intros Hpt Ht. destruct (Z.eq_dec p 0) as [-> | Hp0].
  - exists 0. rewrite percent_zero by assumption.
    repeat split; try lia.
  - destruct (Z.eq_dec p t) as [Heq | Hne].
    + destruct (percent_between 1 p t) as (z & Hz & Hb); try lia.
      exists z. repeat split; try lia. assumption.
    + destruct (percent_between 0 p t) as (z & Hz & Hb); try lia.
      exists z. repeat split; try lia. assumption.
Qed.

End NumberFacts.

(** ** Facts on the string and array primitives *)

Module JSFacts.
Import JS Spec.

Lemma startsWith_spec (s p : string) :
  startsWith s p = true <-> exists post, s = p ++ post.
Proof.
  revert s. induction p as [ | a p IH]; intros s; cbn [startsWith].
  - split; [intros _; exists s; reflexivity | intros _; destruct s; reflexivity].
  - destruct s as [ | b s]; cbn [startsWith].
    + split; [discriminate | intros [post H]; discriminate].
    + rewrite andb_true_iff, Ascii.eqb_eq, IH. split.
      * intros [-> [post ->]]. exists post. reflexivity.
      * intros [post H]. cbn in H. injection H as -> ->. split; eauto.
Qed.

(** [includes] decides the occurrence of a substring. *)
Lemma includes_spec (s sub : string) :
  includes s sub = true <-> Substring sub s.
Proof.
  unfold Substring.
  induction s as [ | c s IH]; cbn [includes];
    rewrite orb_true_iff, startsWith_spec.
  - split.
    + intros [[post H] | H]; [ | discriminate].
      exists EmptyString, post. exact H.
    + intros (pre & post & H). left.
      destruct pre; cbn in H; [exists post; exact H | discriminate].
  - rewrite IH. split.
    + intros [[post H] | (pre & post & H)].
      * exists EmptyString, post. exact H.
      * exists (String c pre), post. cbn. rewrite H. reflexivity.
    + intros (pre & post & H). destruct pre as [ | a pre]; cbn in H.
      * left. exists post. exact H.
      * right. injection H as -> ->. exists pre, post. reflexivity.
Qed.


(** Every string includes the empty string. *)
Lemma includes_empty (s : string) : includes s EmptyString = true.
Proof. destruct s; reflexivity. Qed.

Lemma append_length (s1 s2 : string) :
  String.length (s1 ++ s2) = (String.length s1 + String.length s2)%nat.
Proof. induction s1 as [ | c s1 IH]; cbn; congruence. Qed.

Lemma includes_length (s sub : string) :
  includes s sub = true -> (String.length sub <= String.length s)%nat.
Proof.
  rewrite includes_spec. intros (pre & post & ->).
  rewrite !append_length. lia.
Qed.

Lemma toLowerCase_length (s : string) :
  String.length (toLowerCase s) = String.length s.
Proof. induction s as [ | c s IH]; cbn; congruence. Qed.

(** The word is included exactly when it occurs at some position. *)
Lemma includes_occurrences (s word : string) :
  includes s word = (0 <? occurrences s word)%nat.
Proof.
  induction s as [ | c s IH]; cbn [includes occurrences].
  - destruct (startsWith EmptyString word); reflexivity.
  - rewrite IH. destruct (startsWith (String c s) word); cbn [orb].
    + reflexivity.
    + reflexivity.
Qed.

Example toLowerCase_example :
  toLowerCase "Market SHARE: 10%" = "market share: 10%".
Proof. reflexivity. Qed.

(** *** The pieces of [split] *)

Lemma split_ws_empty : split_ws EmptyString = [EmptyString].
Proof. reflexivity. Qed.

(** Runs of white space separate once; white space at either end of the
    text leaves an empty piece there. *)
Example split_ws_examples :
  split_ws "strong  growth potential" = ["strong"; "growth"; "potential"]
  /\ split_ws " growth " = [EmptyString; "growth"; EmptyString]
  /\ split_ws "   " = [EmptyString; EmptyString]
  /\ split_ws ("a" ++ String "009"%char (String "010"%char "b")) = ["a"; "b"].
Proof. repeat split; reflexivity. Qed.

(** A split never returns the empty array. *)
Lemma split_scan_nonempty (inSep : bool) (cur s : string) :
  split_scan inSep cur s <> [].
Proof.
  revert inSep cur. induction s as [ | c s IH]; intros inSep cur;
    cbn [split_scan]; [discriminate | ].
  destruct (isWhiteSpace c); [destruct inSep | ];
    solve [apply IH | discriminate].
Qed.

Lemma piecesWeight_cons (piece : string) (pieces : list string) :
  piecesWeight (piece :: pieces)
  = (S (String.length piece) + piecesWeight pieces)%nat.
Proof. reflexivity. Qed.

(** The pieces and the separators between them fit in the string. *)
Lemma split_scan_weight (inSep : bool) (cur s : string) :
  (piecesWeight (split_scan inSep cur s)
   <= String.length cur + String.length s + 1)%nat.
Proof.
  revert inSep cur. induction s as [ | c s IH]; intros inSep cur;
    cbn [split_scan].
  - rewrite piecesWeight_cons. cbn. lia.
  - destruct (isWhiteSpace c); [destruct inSep | ].
    + specialize (IH true cur). cbn [String.length]. lia.
    + specialize (IH true EmptyString). rewrite piecesWeight_cons.
      cbn [String.length] in *. lia.
    + specialize (IH false (cur ++ String c EmptyString)).
      rewrite append_length in IH. cbn [String.length] in *. lia.
Qed.

Lemma split_ws_weight (s : string) :
  (piecesWeight (split_ws s) <= String.length s + 1)%nat.
Proof. apply (split_scan_weight false EmptyString s). Qed.

(** No piece holds a white space character. *)
Lemma split_scan_no_space (inSep : bool) (cur s : string) :
  replace_ws cur = cur ->
  Forall (fun piece => replace_ws piece = piece) (split_scan inSep cur s).
Proof.
  revert inSep cur. induction s as [ | c s IH]; intros inSep cur Hcur;
    cbn [split_scan].
  - constructor; [assumption | constructor].
  - destruct (isWhiteSpace c) eqn:Hc; [destruct inSep | ].
    + apply IH. assumption.
    + constructor; [assumption | ]. apply IH. reflexivity.
    + apply IH. clear IH. induction cur as [ | a cur IHc].
      * cbn. rewrite Hc. reflexivity.
      * cbn [replace_ws append] in *. destruct (isWhiteSpace a).
        -- exfalso.
           assert (Hlen : (String.length (replace_ws cur)
                           <= String.length cur)%nat).
           { clear. induction cur as [ | b cur IHb]; cbn; [lia | ].
             destruct (isWhiteSpace b); cbn; lia. }
           rewrite Hcur in Hlen. cbn in Hlen. lia.
        -- injection Hcur as Hcur. rewrite (IHc Hcur). reflexivity.
Qed.

(** *** [forEach] with [push] is a filter *)

Lemma forEach_push_filter {A : Type} (f : A -> bool) (l init : list A) :
  forEach l (fun acc x => if f x then push acc x else acc) init
  = (init ++ filter f l)%list.
Proof.
  unfold forEach, push. revert init.
  induction l as [ | x l IH]; intros init; cbn [fold_left filter].
  - rewrite app_nil_r. reflexivity.
  - rewrite IH. destruct (f x); [ | reflexivity].
    rewrite <- app_assoc. reflexivity.
Qed.

Lemma Subsequence_filter {A : Type} (f : A -> bool) (l : list A) :
  Subsequence (filter f l) l.
Proof.
  induction l as [ | x l IH]; cbn [filter]; [constructor | ].
  destruct (f x); constructor; assumption.
Qed.

Lemma Subsequence_In {A : Type} (l1 l2 : list A) :
  Subsequence l1 l2 -> forall x, In x l1 -> In x l2.
Proof.
  induction 1 as [ | y l1 l2 _ IH | y l1 l2 _ IH]; intros x Hx.
  - assumption.
  - right. apply IH. assumption.
  - destruct Hx as [-> | Hx]; [left; reflexivity | right; apply IH, Hx].
Qed.

Lemma Subsequence_NoDup {A : Type} (l1 l2 : list A) :
  Subsequence l1 l2 -> NoDup l2 -> NoDup l1.
Proof.
  induction 1 as [ | y l1 l2 Hs IH | y l1 l2 Hs IH]; intros Hnd.
  - assumption.
  - inversion Hnd; subst. apply IH. assumption.
  - inversion Hnd as [ | ? ? Hy Hnd']; subst. constructor.
    + intros Hin. apply Hy. eapply Subsequence_In; eassumption.
    + apply IH. assumption.
Qed.

End JSFacts.

(** ** The scoring helpers: supporting facts *)

Module AiFacts.
Import JS Spec Ai JSFacts.

(** *** [analyzeKeywordRelevance] *)

Lemma analyzeKeywordRelevance_filter (text : string) (keywords : list string) :
  analyzeKeywordRelevance text keywords
  = filter (keywordMatches (toLowerCase text)) keywords.
Proof.
  unfold analyzeKeywordRelevance. rewrite forEach_push_filter. reflexivity.
Qed.

Lemma keywordMatches_spec (text keyword : string) :
  keywordMatches (toLowerCase text) keyword = true <-> relevant text keyword.
Proof.
  unfold keywordMatches, relevant, some. cbv zeta.
  rewrite !orb_true_iff, existsb_exists, !includes_spec. split.
  - intros [[H | H] | (word & Hin & Hw)]; auto.
    right; right. exists word. split; [assumption | ].
    apply orb_true_iff in Hw. rewrite !includes_spec in Hw. tauto.
  - intros [H | [H | (word & Hin & Hw)]]; auto.
    right. exists word. split; [assumption | ].
    apply orb_true_iff. rewrite !includes_spec. tauto.
Qed.

Lemma In_analyzeKeywordRelevance (text keyword : string) (keywords : list string) :
  In keyword (analyzeKeywordRelevance text keywords)
  <-> In keyword keywords /\ relevant text keyword.
Proof.
  rewrite analyzeKeywordRelevance_filter, filter_In, keywordMatches_spec.
  reflexivity.
Qed.

(** With the empty piece among the words, every keyword matches. *)
Lemma keywordMatches_empty_piece (textLower keyword : string) :
  In EmptyString (split_ws textLower) ->
  keywordMatches textLower keyword = true.
Proof.
  intros Hin. unfold keywordMatches, some. cbv zeta.
  apply orb_true_iff. right. apply existsb_exists.
  exists EmptyString. split; [assumption | ].
  rewrite includes_empty. apply orb_true_r.
Qed.

Lemma filter_all {A : Type} (f : A -> bool) (l : list A) :
  (forall x, In x l -> f x = true) -> filter f l = l.
Proof.
  induction l as [ | x l IH]; intros Hf; cbn [filter]; [reflexivity | ].
  rewrite (Hf x (or_introl eq_refl)), IH; [reflexivity | ].
  intros y Hy. apply Hf. right. assumption.
Qed.

(** A text that ends with a white space character has the empty piece as
    its last word. *)
Lemma split_scan_trailing_space (inSep : bool) (cur s : string) (c : ascii) :
  isWhiteSpace c = true -> (inSep = true -> cur = EmptyString) ->
  In EmptyString (split_scan inSep cur (s ++ String c EmptyString)).
Proof.
  intros Hc. revert inSep cur.
  induction s as [ | a s IH]; intros inSep cur Hcur;
    cbn [append split_scan].
  - rewrite Hc. destruct inSep.
    + left. apply Hcur. reflexivity.
    + right. left. reflexivity.
  - destruct (isWhiteSpace a); [destruct inSep | ].
    + apply IH. assumption.
    + right. apply IH. reflexivity.
    + apply IH. discriminate.
Qed.

(** *** [calculateSentimentScore] *)

Lemma countSentimentWords_from (words : list string) (p n : Z) :
  forEach words
    (fun '(positiveCount, negativeCount) word =>
       let positiveCount :=
         if some (fun pw => includes word pw) positiveWords
         then positiveCount + 1 else positiveCount in
       let negativeCount :=
         if some (fun nw => includes word nw) negativeWords
         then negativeCount + 1 else negativeCount in
       (positiveCount, negativeCount))
    (p, n)
  = (p + countTokens positiveWords words, n + countTokens negativeWords words).
Proof.
  unfold forEach, countTokens, containsMarker, some. revert p n.
  induction words as [ | word words IH]; intros p n; cbn [fold_left filter].
  - cbn. f_equal; lia.
  - rewrite IH. cbv zeta.
    destruct (existsb (fun pw => includes word pw) positiveWords);
      destruct (existsb (fun nw => includes word nw) negativeWords);
      cbn [List.length]; f_equal; lia.
Qed.

Lemma countSentimentWords_counts (words : list string) :
  countSentimentWords words
  = (countTokens positiveWords words, countTokens negativeWords words).
Proof.
  unfold countSentimentWords. rewrite countSentimentWords_from. reflexivity.
Qed.

Lemma countTokens_nonneg (markers tokens : list string) :
  0 <= countTokens markers tokens.
Proof. unfold countTokens. lia. Qed.

(** A token that contains a marker of three or more code units weighs at
    least four: the counted tokens are at most a quarter of the weight. *)
Lemma countTokens_weight (markers tokens : list string) :
  Forall (fun marker => (3 <= String.length marker)%nat) markers ->
  4 * countTokens markers tokens <= Z.of_nat (piecesWeight tokens).
Proof.
  intros Hmarkers. unfold countTokens.
  induction tokens as [ | token tokens IH]; cbn [filter].
  - cbn. lia.
  - rewrite piecesWeight_cons.
    destruct (containsMarker markers token) eqn:Hc; cbn [List.length]; [ | lia].
    unfold containsMarker in Hc. apply existsb_exists in Hc.
    destruct Hc as (marker & Hin & Hinc).
    apply includes_length in Hinc.
    rewrite Forall_forall in Hmarkers. specialize (Hmarkers marker Hin). lia.
Qed.

Lemma positiveWords_long :
  Forall (fun marker => (3 <= String.length marker)%nat) positiveWords.
Proof. repeat constructor. Qed.

Lemma negativeWords_long :
  Forall (fun marker => (3 <= String.length marker)%nat) negativeWords.
Proof. repeat constructor. Qed.

(** The counters of a valid String stay below [2 ^ 53]: they are exact
    Numbers. *)
Lemma counts_exact (text : string) :
  validString text ->
  countTokens positiveWords (split_ws (toLowerCase text))
  + countTokens negativeWords (split_ws (toLowerCase text)) < 2 ^ 53.
Proof.
  unfold validString, maxStringLength. intros Hlen.
  set (words := split_ws (toLowerCase text)).
  pose proof (countTokens_weight positiveWords words positiveWords_long) as Hp.
  pose proof (countTokens_weight negativeWords words negativeWords_long) as Hn.
  pose proof (split_ws_weight (toLowerCase text)) as Hw. fold words in Hw.
  rewrite toLowerCase_length in Hw.
  assert (Z.of_nat (piecesWeight words) <= 2 ^ 53) by lia.
  change (2 ^ 53) with 9007199254740992 in *. lia.
Qed.

Lemma calculateSentimentScore_counts (text : string) :
  calculateSentimentScore text = sentiment text.
Proof.
  unfold calculateSentimentScore, sentiment. cbv zeta.
  rewrite countSentimentWords_counts.
  set (p := countTokens positiveWords _). set (n := countTokens negativeWords _).
  pose proof (countTokens_nonneg positiveWords (split_ws (toLowerCase text))).
  pose proof (countTokens_nonneg negativeWords (split_ws (toLowerCase text))).
  fold p in H. fold n in H0.
  destruct (p + n =? 0) eqn:Ht.
  - apply Z.eqb_eq in Ht.
    replace (p =? 0) with true by (symmetry; apply Z.eqb_eq; lia).
    replace (n =? 0) with true by (symmetry; apply Z.eqb_eq; lia).
    reflexivity.
  - apply Z.eqb_neq in Ht.
    destruct (p =? 0) eqn:Hp; destruct (n =? 0) eqn:Hn; cbn [andb];
      try reflexivity.
    apply Z.eqb_eq in Hp, Hn. lia.
Qed.

(** The sentiment score of a valid String is an integer from 0 to 100. *)
Lemma calculateSentimentScore_range (text : string) :
  validString text ->
  exists z, calculateSentimentScore text = Some z /\ 0 <= z <= 100.
Proof.
  intros Hvalid. pose proof (counts_exact text Hvalid) as Hexact.
  unfold calculateSentimentScore. cbv zeta.
  rewrite countSentimentWords_counts.
  set (p := countTokens positiveWords _) in *.
  set (n := countTokens negativeWords _) in *.
  assert (Hp : 0 <= p) by apply countTokens_nonneg.
  assert (Hn : 0 <= n) by apply countTokens_nonneg.
  destruct (p + n =? 0) eqn:Ht.
  - exists 75. split; [reflexivity | lia].
  - apply Z.eqb_neq in Ht.
    destruct (NumberFacts.percent_range p (p + n)) as (z & Hz & Hb & _);
      try lia.
    exists z. split; [exact Hz | assumption].
Qed.

(** *** [calculatePerformanceScore] *)

Lemma qualityWords_filter (text : string) :
  filter (fun word => includes (toLowerCase text) word) qualityWords
  = filter (fun word => (0 <? occurrences (toLowerCase text) word)%nat)
           qualityWords.
Proof.
  apply filter_ext. intros word. apply includes_occurrences.
Qed.

Lemma calculatePerformanceScore_performance
  (text : string) (sentimentScore responseTime : Z) :
  calculatePerformanceScore text sentimentScore responseTime
  = performance qualityBonusPerWord text sentimentScore responseTime.
Proof.
  unfold calculatePerformanceScore, performance, qualityBonusPerWord,
    clamp, lengthBonus, speedBonus. cbv zeta.
  rewrite qualityWords_filter.
  destruct (responseTime <? 3000); [ | destruct (responseTime <? 5000)];
    f_equal; f_equal; lia.
Qed.

Lemma qualityBonusPerWord_range (text : string) :
  0 <= qualityBonusPerWord text <= 18.
Proof.
  unfold qualityBonusPerWord.
  pose proof (filter_length_le
    (fun word => (0 <? occurrences (toLowerCase text) word)%nat) qualityWords)
    as Hle.
  change (List.length qualityWords) with 9%nat in Hle. lia.
Qed.

Lemma calculatePerformanceScore_range
  (text : string) (sentimentScore responseTime : Z) :
  0 <= calculatePerformanceScore text sentimentScore responseTime <= 100.
Proof. unfold calculatePerformanceScore. cbv zeta. lia. Qed.

End AiFacts.

(** ** The properties of the scoring module *)

Module Scoring.
Import JS Spec Ai JSFacts AiFacts.

(** *** Empty text *)

(** C1: with the empty text the sentiment score is the neutral 75, but
    [analyzeKeywordRelevance] returns every keyword it was given, not the
    empty list: the empty text splits into one empty word, and every
    keyword includes the empty word. *)
Theorem empty_text_scores (keywords : list string) :
  calculateSentimentScore EmptyString = Some 75
  /\ split_ws (toLowerCase EmptyString) = [EmptyString]
  /\ analyzeKeywordRelevance EmptyString keywords = keywords
  /\ analyzeKeywordRelevance EmptyString ["growth"] = ["growth"].
Proof.
  split; [reflexivity | ]. split; [reflexivity | ]. split; [ | reflexivity].
  rewrite analyzeKeywordRelevance_filter. apply filter_all.
  intros keyword _. apply keywordMatches_empty_piece. left. reflexivity.
Qed.

(** The same empty word ends the words of every text that ends with a
    white space character: such a text makes every keyword relevant. *)
Lemma trailing_space_keeps_every_keyword
  (text : string) (c : ascii) (keywords : list string) :
  isWhiteSpace c = true ->
  analyzeKeywordRelevance (text ++ String c EmptyString) keywords = keywords.
Proof.
  intros Hc. rewrite analyzeKeywordRelevance_filter. apply filter_all.
  intros keyword _. apply keywordMatches_empty_piece.
  assert (Hlower : toLowerCase (text ++ String c EmptyString)
                   = toLowerCase text ++ String c EmptyString).
  { induction text as [ | a text IH]; cbn [append toLowerCase].
    - f_equal. revert Hc. unfold isWhiteSpace, lowerChar.
      destruct c as [[ | ] [ | ] [ | ] [ | ] [ | ] [ | ] [ | ] [ | ]];
        cbn; intros Hc; try discriminate; reflexivity.
    - rewrite IH. reflexivity. }
  rewrite Hlower. apply split_scan_trailing_space; [assumption | discriminate].
Qed.

Example trailing_newline_example :
  analyzeKeywordRelevance "no match here" ["zebra"] = []
  /\ analyzeKeywordRelevance ("no match here" ++ String "010"%char EmptyString)
       ["zebra"] = ["zebra"].
Proof. split; reflexivity. Qed.

(** *** The content-quality bonus *)

(** C2, as the claim states it: on "analysis analysis analysis" with
    sentiment 75 and 2000 ms the code returns 87, while a bonus of 2 for
    each occurrence gives 91. *)
Lemma quality_bonus_per_occurrence_fails :
  calculatePerformanceScore "analysis analysis analysis" 75 2000 = 87
  /\ performance qualityBonusPerOccurrence
       "analysis analysis analysis" 75 2000 = 91.
Proof. split; reflexivity. Qed.

(** C2, amended: the content-quality bonus adds 2 for each word of the
    quality list that occurs at least once in the lower-cased text, however
    often it occurs, so at most 18; the performance score is the clamped
    sum of the sentiment score, the length bonus, the speed bonus and this
    bonus, and for "analysis analysis analysis" with sentiment 75 and 2000
    ms it is 87 (75 + 0 + 10 + 2). *)
Theorem quality_bonus_per_word
  (text : string) (sentimentScore responseTime : Z) :
  calculatePerformanceScore text sentimentScore responseTime
  = clamp (sentimentScore + lengthBonus text + speedBonus responseTime
           + qualityBonusPerWord text)
  /\ 0 <= qualityBonusPerWord text <= 18
  /\ calculatePerformanceScore "analysis analysis analysis" 75 2000 = 87.
Proof.
  split; [apply calculatePerformanceScore_performance | ].
  split; [apply qualityBonusPerWord_range | reflexivity].
Qed.

(** *** The relevant keywords *)

(** C3, as the claim states it: a keyword given twice is returned twice. *)
Lemma keyword_relevance_keeps_duplicates :
  analyzeKeywordRelevance "a" ["a"; "a"] = ["a"; "a"]
  /\ ~ NoDup (analyzeKeywordRelevance "a" ["a"; "a"]).
Proof.
  split; [reflexivity | ].
  change (analyzeKeywordRelevance "a" ["a"; "a"]) with ["a"; "a"].
  intros Hnd. inversion Hnd as [ | ? ? Hnotin _]; subst.
  apply Hnotin. left. reflexivity.
Qed.

(** C3, amended: the returned list is a subsequence of the supplied
    keyword sequence (its elements are elements of the input, in the
    input's order, each occurrence of the input kept at most once); it has
    no duplicates when the input has none. *)
Theorem keyword_relevance_subsequence (text : string) (keywords : list string) :
  Subsequence (analyzeKeywordRelevance text keywords) keywords
  /\ (forall keyword,
        In keyword (analyzeKeywordRelevance text keywords) ->
        In keyword keywords)
  /\ (NoDup keywords -> NoDup (analyzeKeywordRelevance text keywords)).
Proof.
  assert (Hsub : Subsequence (analyzeKeywordRelevance text keywords) keywords).
  { rewrite analyzeKeywordRelevance_filter. apply Subsequence_filter. }
  split; [assumption | ]. split.
  - apply Subsequence_In. assumption.
  - apply Subsequence_NoDup. assumption.
Qed.

Lemma keyword_relevance_subsequence_witness :
  NoDup ["growth"; "zebra"; "market share"]
  /\ NoDup (analyzeKeywordRelevance "We see strong growth potential"
              ["growth"; "zebra"; "market share"]).
Proof.
  assert (Hnd : NoDup ["growth"; "zebra"; "market share"]).
  { repeat constructor; cbn; intros H;
      repeat (destruct H as [H | H]; [discriminate H | ]); exact H. }
  split; [exact Hnd | ].
  exact (proj2 (proj2 (keyword_relevance_subsequence
    "We see strong growth potential" ["growth"; "zebra"; "market share"])) Hnd).
Defined.

(** *** The ranges of the scores *)

(** C4: for every text (a String value), every keyword list and every
    response time, negative or zero included, the sentiment score is an
    integer from 0 to 100 and the performance score is an integer from 0
    to 100. *)
Theorem scores_in_range
  (text : string) (keywords : list string) (elapsedMs : Z) :
  validString text ->
  exists result,
    score text keywords elapsedMs = Some result
    /\ 0 <= sentimentScore result <= 100
    /\ 0 <= performanceScore result <= 100.
Proof.
  intros Hvalid. unfold score.
  destruct (calculateSentimentScore_range text Hvalid) as (z & -> & Hz).
  eexists. split; [reflexivity | ]. cbn [sentimentScore performanceScore].
  split; [assumption | apply calculatePerformanceScore_range].
Qed.

Lemma scores_in_range_witness :
  validString "A strong opportunity, with some risk"
  /\ exists result,
       score "A strong opportunity, with some risk" ["risk"] (-5)
       = Some result
       /\ 0 <= sentimentScore result <= 100
       /\ 0 <= performanceScore result <= 100.
Proof.
  assert (Hvalid : validString "A strong opportunity, with some risk").
  { unfold validString, maxStringLength. cbn. lia. }
  split; [exact Hvalid | ].
  exact (scores_in_range "A strong opportunity, with some risk"
           ["risk"] (-5) Hvalid).
Defined.

(** *** The sentiment score *)



(** *** The three tests of keyword relevance *)


(** *** Totality *)

(** C7: the scoring functions return a well-defined result on every
    input, empty strings, empty keyword lists and zero or negative
    response times included: the sentiment score is an integer (no NaN,
    no infinity), and the three results make up the analysis. *)
Theorem scoring_total
  (text : string) (keywords : list string) (elapsedMs : Z) :
  validString text ->
  exists sentiment,
    calculateSentimentScore text = Some sentiment
    /\ score text keywords elapsedMs
       = Some {| sentimentScore := sentiment;
                 keywordRelevance := analyzeKeywordRelevance text keywords;
                 performanceScore :=
                   calculatePerformanceScore text sentiment elapsedMs |}.
Proof.
  intros Hvalid. unfold score.
  destruct (calculateSentimentScore_range text Hvalid) as (z & -> & _).
  exists z. split; reflexivity.
Qed.

Lemma scoring_total_witness :
  validString EmptyString
  /\ exists sentiment,
       calculateSentimentScore EmptyString = Some sentiment
       /\ score EmptyString [] (-1)
          = Some {| sentimentScore := sentiment;
                    keywordRelevance := analyzeKeywordRelevance EmptyString [];
                    performanceScore :=
                      calculatePerformanceScore EmptyString sentiment (-1) |}.
Proof.
  assert (Hvalid : validString EmptyString).
  { unfold validString, maxStringLength. cbn. lia. }
  split; [exact Hvalid | ].
  exact (scoring_total EmptyString [] (-1) Hvalid).
Defined.

(** *** Determinism *)



(** *** The empty keyword *)

(** C9: for every text, an empty-string keyword of the keyword list is
    returned among the relevant keywords, as the lower-cased text includes
    the empty string. *)
Theorem empty_keyword_relevant (text : string) (keywords : list string) :
  In EmptyString keywords ->
  includes (toLowerCase text) (toLowerCase EmptyString) = true
  /\ In EmptyString (analyzeKeywordRelevance text keywords).
Proof.
  intros Hin. split; [apply includes_empty | ].
  rewrite analyzeKeywordRelevance_filter. apply filter_In.
  split; [assumption | ].
  unfold keywordMatches. cbv zeta. cbn [toLowerCase].
  rewrite includes_empty. reflexivity.
Qed.

Lemma empty_keyword_relevant_witness :
  In EmptyString ["zebra"; EmptyString]
  /\ includes (toLowerCase "Some text") (toLowerCase EmptyString) = true
  /\ In EmptyString
       (analyzeKeywordRelevance "Some text" ["zebra"; EmptyString]).
Proof.
  assert (Hin : In EmptyString ["zebra"; EmptyString])
    by (right; left; reflexivity).
  split; [exact Hin | ].
  exact (empty_keyword_relevant "Some text" ["zebra"; EmptyString] Hin).
Defined.

(** *** The performance score and the sentiment score *)

(** C10: for every text, every response time and every sentiment score
    from 0 to 100, the performance score is at least the sentiment score:
    the three bonuses are not negative, and the clamp to 0..100 does not
    go below a score of at most 100. *)
Theorem performance_at_least_sentiment
  (text : string) (sentimentScore responseTime : Z) :
  0 <= sentimentScore <= 100 ->
  0 <= lengthBonus text /\ 0 <= speedBonus responseTime
  /\ 0 <= qualityBonusPerWord text
  /\ sentimentScore
     <= calculatePerformanceScore text sentimentScore responseTime.
Proof.
  intros Hs.
  assert (Hl : 0 <= lengthBonus text).
  { unfold lengthBonus. apply Z.min_glb; [lia | ].
    apply Z.div_pos; lia. }
  assert (Hsp : 0 <= speedBonus responseTime).
  { unfold speedBonus. destruct (responseTime <? 3000); [lia | ].
    destruct (responseTime <? 5000); lia. }
  pose proof (qualityBonusPerWord_range text) as Hq.
  repeat split; try lia.
  rewrite calculatePerformanceScore_performance.
  unfold performance, clamp. lia.
Qed.

Lemma performance_at_least_sentiment_witness :
  0 <= 75 <= 100
  /\ 0 <= lengthBonus "market analysis" /\ 0 <= speedBonus 7000
  /\ 0 <= qualityBonusPerWord "market analysis"
  /\ 75 <= calculatePerformanceScore "market analysis" 75 7000.
Proof.
  assert (Hs : 0 <= 75 <= 100) by lia.
  split; [exact Hs | ].
  exact (performance_at_least_sentiment "market analysis" 75 7000 Hs).
Defined.

End Scoring.

(** ** The engines: what every analysis satisfies *)

Module EnginesFacts.
Import JS Spec Ai JSFacts AiFacts Engines.

Lemma toLowerCase_append (s1 s2 : string) :
  toLowerCase (s1 ++ s2) = toLowerCase s1 ++ toLowerCase s2.
Proof. induction s1 as [ | c s1 IH]; cbn; congruence. Qed.

Lemma append_assoc (s1 s2 s3 : string) : (s1 ++ s2) ++ s3 = s1 ++ s2 ++ s3.
Proof. induction s1 as [ | c s1 IH]; cbn; congruence. Qed.

Lemma append_empty_r (s : string) : s ++ EmptyString = s.
Proof. induction s as [ | c s IH]; cbn; congruence. Qed.

Lemma Substring_refl (s : string) : Substring s s.
Proof. exists EmptyString, EmptyString. cbn. rewrite append_empty_r. reflexivity. Qed.

Lemma Substring_trans (s1 s2 s3 : string) :
  Substring s1 s2 -> Substring s2 s3 -> Substring s1 s3.
Proof.
  intros (pre1 & post1 & ->) (pre2 & post2 & ->).
  exists (pre2 ++ pre1), (post1 ++ post2).
  rewrite !append_assoc. reflexivity.
Qed.

Lemma Substring_middle (pre s post : string) : Substring s (pre ++ s ++ post).
Proof. exists pre, post. reflexivity. Qed.

Lemma Substring_toLowerCase (sub s : string) :
  Substring sub s -> Substring (toLowerCase sub) (toLowerCase s).
Proof.
  intros (pre & post & ->). rewrite !toLowerCase_append.
  apply Substring_middle.
Qed.

(** Every element of [l.slice(0, 2)] occurs in [l.slice(0, 2).join(', ')]. *)
Lemma Substring_join_slice (keywords : list string) (keyword : string) :
  In keyword (slice keywords 0 2) ->
  Substring keyword (join (slice keywords 0 2) ", ").
Proof.
  unfold slice, join. cbn [Nat.sub skipn].
  destruct keywords as [ | a [ | b rest]]; cbn [firstn In String.concat].
  - intros [].
  - intros [<- | []]. apply Substring_refl.
  - intros [<- | [<- | []]].
    + exists EmptyString, (", " ++ b). reflexivity.
    + exists (a ++ ", "), EmptyString.
      rewrite append_empty_r, append_assoc. reflexivity.
Qed.

Lemma In_slice {A : Type} (l : list A) (x : A) (n : nat) :
  In x (slice l 0 n) -> In x l.
Proof.
  unfold slice. cbn [skipn]. rewrite Nat.sub_0_r. intros Hin.
  rewrite <- (firstn_skipn n l). apply in_or_app. left. exact Hin.
Qed.

(** X1: the simulated Gemini response names the first two keywords, so the
    Gemini analysis reports each of them as relevant, whatever the prompt
    and the response time. *)
Theorem gemini_first_keywords_relevant
  (promptContent : string) (keywords : list string) (responseTime : Z)
  (keyword : string) :
  In keyword (slice keywords 0 2) ->
  In keyword
     (keywordRelevance (analyzeWithGemini promptContent keywords responseTime)).
Proof.
  intros Hin. unfold analyzeWithGemini, scoresOf. cbn [keywordRelevance].
  apply In_analyzeKeywordRelevance. split; [eapply In_slice; eassumption | ].
  left. apply Substring_toLowerCase.
  eapply Substring_trans; [apply Substring_join_slice; eassumption | ].
  apply Substring_middle.
Qed.

Lemma gemini_first_keywords_relevant_witness :
  In "pricing" (slice ["cloud"; "pricing"; "zebra"] 0 2)
  /\ In "pricing"
       (keywordRelevance
          (analyzeWithGemini "Any prompt" ["cloud"; "pricing"; "zebra"] 1500)).
Proof.
  assert (Hin : In "pricing" (slice ["cloud"; "pricing"; "zebra"] 0 2))
    by (right; left; reflexivity).
  split; [exact Hin | ].
  exact (gemini_first_keywords_relevant "Any prompt"
           ["cloud"; "pricing"; "zebra"] 1500 "pricing" Hin).
Defined.

(** *** The fixed part of the simulated response *)

Lemma simulatedResponse_length (keywords : list string) :
  (252 <= String.length (simulatedResponse keywords))%nat.
Proof.
  unfold simulatedResponse. rewrite !append_length.
  change (String.length "Gemini Analysis: Based on the provided prompt, here are the key insights and recommendations. The analysis suggests strong potential for market positioning and user engagement strategies. Keywords like ")
    with 202%nat.
  change (String.length " show high relevance for strategic implementation.")
    with 50%nat.
  lia.
Qed.

(** A word of the fixed opening of the response occurs in every
    simulated response. *)
Lemma simulatedResponse_includes (keywords : list string) (word : string) :
  includes
    (toLowerCase "Gemini Analysis: Based on the provided prompt, here are the key insights and recommendations. The analysis suggests strong potential for market positioning and user engagement strategies. Keywords like ")
    word = true ->
  includes (toLowerCase (simulatedResponse keywords)) word = true.
Proof.
  rewrite !includes_spec. intros Hsub. unfold simulatedResponse.
  rewrite toLowerCase_append.
  eapply Substring_trans; [exact Hsub | ].
  exists EmptyString. eexists. reflexivity.
Qed.

Lemma simulatedResponse_quality (keywords : list string) :
  10 <= qualityBonusPerWord (simulatedResponse keywords).
Proof.
  unfold qualityBonusPerWord. rewrite <- qualityWords_filter.
  unfold qualityWords. cbn [filter].
  rewrite (simulatedResponse_includes keywords "analysis" eq_refl).
  rewrite (simulatedResponse_includes keywords "recommendation" eq_refl).
  rewrite (simulatedResponse_includes keywords "insight" eq_refl).
  rewrite (simulatedResponse_includes keywords "potential" eq_refl).
  rewrite (simulatedResponse_includes keywords "market" eq_refl).
  repeat match goal with
         | |- context [if ?b then _ else _] => destruct b
         end; cbn [List.length]; lia.
Qed.

Lemma lengthBonus_nonneg (text : string) : 0 <= lengthBonus text.
Proof.
  unfold lengthBonus. apply Z.min_glb; [lia | apply Z.div_pos; lia].
Qed.

Lemma speedBonus_range (responseTime : Z) : 0 <= speedBonus responseTime <= 10.
Proof.
  unfold speedBonus. destruct (responseTime <? 3000); [lia | ].
  destruct (responseTime <? 5000); lia.
Qed.

Lemma simulatedResponse_lengthBonus (keywords : list string) :
  2 <= lengthBonus (simulatedResponse keywords).
Proof.
  unfold lengthBonus. pose proof (simulatedResponse_length keywords) as Hlen.
  apply Z.min_glb; [lia | ]. apply Z.div_le_lower_bound; lia.
Qed.

(** X2: every simulated Gemini analysis has a sentiment score from 0 to
    100 and a performance score of at least 12 points more, or of 100: the
    fixed text earns a length bonus of 2 and holds five quality words. *)
Theorem gemini_performance_bonus
  (promptContent : string) (keywords : list string) (responseTime : Z) :
  validString (simulatedResponse keywords) ->
  exists sentiment performance,
    sentimentScore (analyzeWithGemini promptContent keywords responseTime)
    = Some sentiment
    /\ performanceScore (analyzeWithGemini promptContent keywords responseTime)
       = Some performance
    /\ 0 <= sentiment <= 100
    /\ Z.min 100 (sentiment + 12) <= performance <= 100.
Proof.
  intros Hvalid. unfold analyzeWithGemini, scoresOf.
  cbn [sentimentScore performanceScore].
  destruct (calculateSentimentScore_range _ Hvalid) as (s & -> & Hs).
  exists s. eexists. split; [reflexivity | ]. split; [reflexivity | ].
  split; [assumption | ].
  rewrite calculatePerformanceScore_performance. unfold performance, clamp.
  pose proof (simulatedResponse_lengthBonus keywords).
  pose proof (simulatedResponse_quality keywords).
  pose proof (speedBonus_range responseTime). lia.
Qed.

Lemma gemini_performance_bonus_witness :
  validString (simulatedResponse ["risk"; "bad debt"])
  /\ exists sentiment performance,
       sentimentScore (analyzeWithGemini "Any prompt" ["risk"; "bad debt"] 9000)
       = Some sentiment
       /\ performanceScore
            (analyzeWithGemini "Any prompt" ["risk"; "bad debt"] 9000)
          = Some performance
       /\ 0 <= sentiment <= 100
       /\ Z.min 100 (sentiment + 12) <= performance <= 100.
Proof.
  assert (Hvalid : validString (simulatedResponse ["risk"; "bad debt"])).
  { unfold validString, maxStringLength. cbn. lia. }
  split; [exact Hvalid | ].
  exact (gemini_performance_bonus "Any prompt" ["risk"; "bad debt"] 9000 Hvalid).
Defined.

(** *** Words of a text between two spaces *)

(** Scanning a word without white space, then a white space character,
    closes the piece that holds the word. *)
Lemma split_scan_word (inSep : bool) (cur word post : string) (c : ascii) :
  replace_ws word = word -> isWhiteSpace c = true ->
  word <> EmptyString \/ inSep = false ->
  split_scan inSep cur (word ++ String c post)
  = (cur ++ word) :: split_scan true EmptyString post.
Proof.
  intros Hword Hc. revert inSep cur.
  induction word as [ | a word IH]; intros inSep cur Hne.
  - destruct Hne as [Hne | ->]; [contradiction Hne; reflexivity | ].
    cbn [append split_scan]. rewrite Hc, append_empty_r. reflexivity.
  - cbn [replace_ws] in Hword. cbn [append split_scan].
    destruct (isWhiteSpace a) eqn:Ha.
    + exfalso.
      assert (Hlen : (String.length (replace_ws word)
                      <= String.length word)%nat).
      { clear. induction word as [ | b word IHb]; cbn; [lia | ].
        destruct (isWhiteSpace b); cbn; lia. }
      rewrite Hword in Hlen. cbn in Hlen. lia.
    + injection Hword as Hword. rewrite (IH Hword) by (right; reflexivity).
      rewrite append_assoc. reflexivity.
Qed.

(** A word without white space that stands between two white space
    characters of the text is one of its pieces. *)
Lemma split_scan_word_between
  (inSep : bool) (cur pre word post : string) (c1 c2 : ascii) :
  replace_ws word = word -> word <> EmptyString ->
  isWhiteSpace c1 = true -> isWhiteSpace c2 = true ->
  (inSep = true -> cur = EmptyString) ->
  In word (split_scan inSep cur (pre ++ String c1 (word ++ String c2 post))).
Proof.
  intros Hword Hne Hc1 Hc2. revert inSep cur.
  induction pre as [ | a pre IH]; intros inSep cur Hcur;
    cbn [append split_scan].
  - rewrite Hc1. destruct inSep.
    + rewrite (Hcur eq_refl).
      rewrite split_scan_word by (assumption || (left; assumption)).
      left. reflexivity.
    + right. rewrite split_scan_word by (assumption || (left; assumption)).
      left. reflexivity.
  - destruct (isWhiteSpace a); [destruct inSep | ].
    + apply IH. assumption.
    + right. apply IH. reflexivity.
    + apply IH. discriminate.
Qed.

Lemma append_between (pre word post rest : string) (c1 c2 : ascii) :
  (pre ++ String c1 (word ++ String c2 post)) ++ rest
  = pre ++ String c1 (word ++ String c2 (post ++ rest)).
Proof.
  rewrite append_assoc. f_equal. cbn [append]. f_equal.
  rewrite append_assoc. reflexivity.
Qed.

Lemma simulatedResponse_strong (keywords : list string) :
  In "strong" (split_ws (toLowerCase (simulatedResponse keywords))).
Proof.
  unfold simulatedResponse. rewrite toLowerCase_append.
  change (toLowerCase "Gemini Analysis: Based on the provided prompt, here are the key insights and recommendations. The analysis suggests strong potential for market positioning and user engagement strategies. Keywords like ")
    with ("gemini analysis: based on the provided prompt, here are the key insights and recommendations. the analysis suggests"
          ++ String " " ("strong" ++ String " " "potential for market positioning and user engagement strategies. keywords like ")).
  rewrite append_between.
  apply split_scan_word_between; try reflexivity; discriminate.
Qed.

Lemma filter_length_pos {A : Type} (f : A -> bool) (l : list A) (x : A) :
  In x l -> f x = true -> (0 < List.length (filter f l))%nat.
Proof.
  intros Hin Hf. assert (Hx : In x (filter f l)) by (apply filter_In; auto).
  destruct (filter f l); [destruct Hx | cbn; lia].
Qed.

(** A valid text with positive tokens and no negative token scores 100. *)
Lemma sentiment_positive_only (text : string) :
  validString text ->
  0 < countTokens positiveWords (split_ws (toLowerCase text)) ->
  countTokens negativeWords (split_ws (toLowerCase text)) = 0 ->
  calculateSentimentScore text = Some 100.
Proof.
  intros Hvalid Hp Hn. pose proof (counts_exact text Hvalid) as Hexact.
  rewrite calculateSentimentScore_counts. unfold sentiment. cbv zeta.
  rewrite Hn in *. rewrite Z.add_0_r in *.
  replace (countTokens positiveWords (split_ws (toLowerCase text)) =? 0)
    with false by (symmetry; apply Z.eqb_neq; lia).
  cbn [andb].
  destruct (NumberFacts.percent_range _ _
              (conj (Z.lt_le_incl _ _ Hp) (Z.le_refl _)) (conj Hp Hexact))
    as (z & -> & _ & Hfull & _).
  rewrite Hfull; reflexivity.
Qed.

(** X3: when no word of the simulated Gemini response contains a
    negative marker (they can only come with the first two keywords), the
    Gemini analysis scores 100 for sentiment and 100 for performance, for
    every prompt and every response time. *)
Theorem gemini_full_marks
  (promptContent : string) (keywords : list string) (responseTime : Z) :
  validString (simulatedResponse keywords) ->
  countTokens negativeWords
    (split_ws (toLowerCase (simulatedResponse keywords))) = 0 ->
  sentimentScore (analyzeWithGemini promptContent keywords responseTime)
  = Some 100
  /\ performanceScore (analyzeWithGemini promptContent keywords responseTime)
     = Some 100.
Proof.
  intros Hvalid Hneg. unfold analyzeWithGemini, scoresOf.
  cbn [sentimentScore performanceScore].
  assert (Hpos : 0 < countTokens positiveWords
                       (split_ws (toLowerCase (simulatedResponse keywords)))).
  { unfold countTokens.
    pose proof (filter_length_pos (containsMarker positiveWords) _ "strong"
                  (simulatedResponse_strong keywords) eq_refl). lia. }
  rewrite (sentiment_positive_only _ Hvalid Hpos Hneg).
  split; [reflexivity | ]. cbn [option_map]. f_equal.
  rewrite calculatePerformanceScore_performance. unfold performance, clamp.
  pose proof (lengthBonus_nonneg (simulatedResponse keywords)).
  pose proof (qualityBonusPerWord_range (simulatedResponse keywords)).
  pose proof (speedBonus_range responseTime). lia.
Qed.

Lemma gemini_full_marks_witness :
  validString (simulatedResponse ["cloud"; "pricing"])
  /\ countTokens negativeWords
       (split_ws (toLowerCase (simulatedResponse ["cloud"; "pricing"]))) = 0
  /\ sentimentScore (analyzeWithGemini "Any prompt" ["cloud"; "pricing"] 7000)
     = Some 100
  /\ performanceScore (analyzeWithGemini "Any prompt" ["cloud"; "pricing"] 7000)
     = Some 100.
Proof.
  assert (Hvalid : validString (simulatedResponse ["cloud"; "pricing"])).
  { unfold validString, maxStringLength. cbn. lia. }
  assert (Hneg : countTokens negativeWords
            (split_ws (toLowerCase (simulatedResponse ["cloud"; "pricing"])))
          = 0) by reflexivity.
  split; [exact Hvalid | ]. split; [exact Hneg | ].
  exact (gemini_full_marks "Any prompt" ["cloud"; "pricing"] 7000 Hvalid Hneg).
Defined.

(** X4: when the completion of the OpenAI call has no content, or the
    empty content, the analysis still resolves: with the empty response,
    the neutral sentiment 75, every keyword of the domain as relevant, and
    the performance 75 plus the speed bonus. *)
Theorem openai_empty_content
  (promptContent : string) (keywords : list string) (responseTime : Z) :
  let result :=
    Resolved {| response := EmptyString;
                sentimentScore := Some 75;
                responseTime := responseTime;
                keywordRelevance := keywords;
                performanceScore := Some (75 + speedBonus responseTime) |} in
  analyzeWithOpenAI promptContent keywords (Completed None) responseTime
  = result
  /\ analyzeWithOpenAI promptContent keywords
       (Completed (Some EmptyString)) responseTime
     = result.
Proof.
  cbv zeta.
  assert (Hscores :
    scoresOf EmptyString keywords responseTime
    = {| response := EmptyString;
         sentimentScore := Some 75;
         responseTime := responseTime;
         keywordRelevance := keywords;
         performanceScore := Some (75 + speedBonus responseTime) |}).
  { unfold scoresOf.
    change (calculateSentimentScore EmptyString) with (Some 75).
    cbn [option_map]. f_equal.
    - rewrite analyzeKeywordRelevance_filter. apply filter_all.
      intros keyword _. apply keywordMatches_empty_piece. left. reflexivity.
    - f_equal. rewrite calculatePerformanceScore_performance.
      unfold performance, clamp.
      change (lengthBonus EmptyString) with 0.
      change (qualityBonusPerWord EmptyString) with 0.
      pose proof (speedBonus_range responseTime). lia. }
  unfold analyzeWithOpenAI. rewrite Hscores. split; reflexivity.
Qed.

End EnginesFacts.

(** ** Rounded means of integer Numbers *)

Module MeanFacts.
Import Number NumberFacts.

(** The quotient of two integer Numbers lies between two integers that
    bound the exact quotient. *)
Lemma div_between_integers (KL KU p t : Z) (x y : number) :
  0 < p -> 0 < t -> between p p 0 x -> between t t 0 y ->
  0 <= KL -> KU < 2 ^ 53 -> KL * t <= p <= KU * t ->
  between KL KU 0 (div x y).
Proof.
  intros Hp Ht Hx Hy HKL HKU Hpt.
  destruct x as [ | | | [ | ] m1 e1]; cbn [between] in Hx; try lia.
  destruct y as [ | | | [ | ] m2 e2]; cbn [between] in Hy; try lia.
  destruct Hx as (He1 & Hx1 & Hx2). destruct Hy as (He2 & Hy1 & Hy2).
  assert (Hm1 : Z.pos m1 = p * 2 ^ (0 - e1)) by lia.
  assert (Hm2 : Z.pos m2 = t * 2 ^ (0 - e2)) by lia.
  clear Hx1 Hx2 Hy1 Hy2.
  set (A := 2 ^ (0 - e1)) in *. set (B := 2 ^ (0 - e2)) in *.
  assert (HA : 0 < A) by (apply Z.pow_pos_nonneg; lia).
  assert (HB : 0 < B) by (apply Z.pow_pos_nonneg; lia).
  assert (HKU1 : 1 <= KU) by nia.
  assert (Hlo : KL * (Z.pos m2 * A) <= Z.pos m1 * B) by (rewrite Hm1, Hm2; nia).
  assert (Hup : Z.pos m1 * B <= KU * (Z.pos m2 * A)) by (rewrite Hm1, Hm2; nia).
  unfold div, SFdiv, SFdiv_core_binary.
  set (d1 := Zdigits2 (Z.pos m1)). set (d2 := Zdigits2 (Z.pos m2)).
  set (e' := Z.min (fexp prec emax (d1 + e1 - (d2 + e2))) (e1 - e2)).
  set (s := e1 - e2 - e').
  assert (Hs : 0 <= s) by (unfold s, e'; lia).
  assert (Hdig : d1 + e1 - (d2 + e2) <= 53).
  { pose proof (digits2_pos_bounds m1) as (Hl1 & _).
    pose proof (digits2_pos_bounds m2) as (_ & Hu2).
    fold (Zdigits2 (Z.pos m1)) in Hl1. fold (Zdigits2 (Z.pos m2)) in Hu2.
    fold d1 in Hl1. fold d2 in Hu2.
    assert (Hd1 : 0 < d1) by (unfold d1; cbn; lia).
    assert (Hd2 : 0 < d2) by (unfold d2; cbn; lia).
    assert (Hlt : 2 ^ (d1 - 1 + (0 - e2)) < 2 ^ (53 + (d2 + (0 - e1)))).
    { rewrite !Z.pow_add_r by lia. fold A B.
      assert (H2d : 0 < 2 ^ d2) by (apply Z.pow_pos_nonneg; lia).
      assert (Hstep1 : 2 ^ (d1 - 1) * B <= Z.pos m1 * B) by nia.
      assert (Hstep2 : KU * (Z.pos m2 * A) < KU * (2 ^ d2 * A)) by nia.
      assert (Hstep3 : KU * (2 ^ d2 * A) < 2 ^ 53 * (2 ^ d2 * A)) by nia.
      lia. }
    apply pow2_lt_exponent in Hlt; lia. }
  assert (He' : e' <= 0).
  { unfold e', fexp, emin, prec, emax. lia. }
  set (C := 2 ^ (0 - e')).
  assert (HC : 0 < C) by (apply Z.pow_pos_nonneg; lia).
  assert (Hscale : 2 ^ s * A = B * C).
  { unfold A, B, C. rewrite <- !Z.pow_add_r by lia. f_equal. unfold s. lia. }
  set (m' := match s with
             | 0 => Z.pos m1
             | Z.pos _ => Z.shiftl (Z.pos m1) s
             | Z.neg _ => 0
             end).
  assert (Hm' : m' = Z.pos m1 * 2 ^ s) by (apply shifted_dividend; assumption).
  clearbody m'.
  pose proof (Z_div_mod m' (Z.pos m2) ltac:(lia)) as Hdm.
  destruct (Z.div_eucl m' (Z.pos m2)) as [q r]. destruct Hdm as (Hqr & Hr).
  change (xorb false false) with false.
  apply binary_round_aux_between;
    [unfold prec; lia | apply binary64_exponents; lia | unfold within].
  fold C.
  assert (Hm'A : m' * A = Z.pos m1 * B * C) by (rewrite Hm'; nia).
  assert (Hge : KL * C * Z.pos m2 <= m').
  { assert (KL * C * Z.pos m2 * A <= m' * A) by nia. nia. }
  assert (Hle : m' <= KU * C * Z.pos m2).
  { assert (m' * A <= KU * C * Z.pos m2 * A) by nia. nia. }
  assert (Hq0 : 0 <= q) by nia.
  assert (HKLC : 0 <= KL * C) by nia.
  assert (HKUC : 0 < KU * C) by nia.
  repeat split; try assumption.
  - assert (KL * C < q + 1) by nia. lia.
  - assert (q < KU * C + 1) by nia. lia.
  - intros Hl. apply new_location_inexact in Hl.
    assert (Z.pos m2 * q < Z.pos m2 * (KU * C)) by nia. nia.
Qed.

(** [Math.round] of a Number between two integers is an integer between
    them. *)
Lemma Math_round_between_integers (KL KU : Z) (x : number) :
  0 <= KL <= KU -> between KL KU 0 x ->
  exists z, Math_round x = Some z /\ KL <= z <= KU.
Proof.
  intros HK Hx.
  destruct x as [sx | | | [ | ] m e]; cbn [between] in Hx; try lia.
  - exists 0. cbn [Math_round]. split; [reflexivity | lia].
  - destruct Hx as (He & Hlo & Hup). cbn [Math_round].
    destruct (0 <=? e) eqn:Hsign; eexists; (split; [reflexivity | ]).
    + apply Z.leb_le in Hsign. assert (e = 0) by lia. subst e.
      change (2 ^ (0 - 0)) with 1 in Hlo, Hup. change (2 ^ 0) with 1. lia.
    + apply Z.leb_gt in Hsign.
      set (D := 2 ^ (- e)).
      assert (HD : 0 < D) by (apply Z.pow_pos_nonneg; lia).
      assert (H1 : 2 ^ (1 - e) = 2 * D).
      { unfold D. rewrite <- Z.pow_succ_r by lia. f_equal. lia. }
      replace (0 - e) with (- e) in Hlo, Hup by lia. fold D in Hlo, Hup.
      rewrite H1. split.
      * apply Z.div_le_lower_bound; [lia | nia].
      * apply Z.lt_succ_r. apply Z.div_lt_upper_bound; [lia | nia].
Qed.

(** The rounded mean of [count] integers from [L] to [U], of sum [total],
    is an integer from [L] to [U]. *)
Theorem roundedMean_between (L U total count : Z) :
  0 < count < 2 ^ 53 -> 0 <= total < 2 ^ 53 -> 0 <= L -> U < 2 ^ 53 ->
  L * count <= total <= U * count ->
  exists z, Storage.roundedMean total count = Some z /\ L <= z <= U.
Proof.
  intros Hcount Htotal HL HU Hmean. unfold Storage.roundedMean.
  assert (HU0 : 0 <= U) by nia.
  pose proof (ofZ_exact count Hcount) as Hy.
  destruct (Z.eq_dec total 0) as [-> | Hne].
  - exists 0. change (ofZ 0) with (S754_zero false).
    destruct (ofZ count) as [ | | | [ | ] m e]; cbn [between] in Hy; try lia.
    split; [reflexivity | nia].
  - assert (Hx : between total total 0 (ofZ total)) by (apply ofZ_exact; lia).
    assert (HLU : L <= U) by nia.
    apply Math_round_between_integers; [lia | ].
    eapply div_between_integers; try eassumption; lia.
Qed.

End MeanFacts.

(** ** Sorting *)

Module JSArrayFacts.
Import JSArray.

Section Sort.

Context {A : Type}.
Variable comparefn : A -> A -> Z.

Lemma insertSorted_Permutation (x : A) (l : list A) :
  Permutation (insertSorted comparefn x l) (x :: l).
Proof.
  induction l as [ | y l IH]; cbn [insertSorted]; [reflexivity | ].
  destruct (comparefn x y <=? 0); [reflexivity | ].
  rewrite IH. apply perm_swap.
Qed.

(** The sorted array holds the elements of the array, each as often. *)
Lemma sort_Permutation (l : list A) : Permutation (JSArray.sort l comparefn) l.
Proof.
  unfold JSArray.sort. induction l as [ | x l IH]; cbn [fold_right]; [reflexivity | ].
  rewrite insertSorted_Permutation. constructor. assumption.
Qed.

(** A consistent comparator: of two elements one may stand before the
    other, and [before] is transitive. *)
Hypothesis before_total : forall a b, before comparefn a b \/ before comparefn b a.
Hypothesis before_trans : forall a b c,
    before comparefn a b -> before comparefn b c -> before comparefn a c.

Lemma insertSorted_sorted (x : A) (l : list A) :
  StronglySorted (before comparefn) l -> StronglySorted (before comparefn) (insertSorted comparefn x l).
Proof.
  induction 1 as [ | y l Hsorted IH Hall]; cbn [insertSorted].
  - repeat constructor.
  - destruct (comparefn x y <=? 0) eqn:Hcmp.
    + apply Z.leb_le in Hcmp. constructor.
      * constructor; assumption.
      * constructor; [exact Hcmp | ].
        rewrite Forall_forall in Hall |- *. intros z Hz.
        eapply before_trans; [exact Hcmp | apply Hall, Hz].
    + apply Z.leb_gt in Hcmp. constructor; [assumption | ].
      assert (Hyx : before comparefn y x).
      { destruct (before_total x y) as [Hxy | Hyx]; [ | assumption].
        unfold before in Hxy. lia. }
      rewrite Forall_forall in Hall |- *. intros z Hz.
      apply (Permutation_in _ (insertSorted_Permutation x l)) in Hz.
      destruct Hz as [<- | Hz]; [assumption | apply Hall, Hz].
Qed.

(** Every element of the sorted array may stand before all that follow. *)
Lemma sort_sorted (l : list A) : StronglySorted (before comparefn) (JSArray.sort l comparefn).
Proof.
  unfold JSArray.sort. induction l as [ | x l IH]; cbn [fold_right];
    [constructor | apply insertSorted_sorted; assumption].
Qed.

End Sort.

Lemma forOfPush_length {A B : Type} (f : A -> option B) (l : list A) (out : list B) :
  forOfPush f l = Some out -> List.length out = List.length l.
Proof.
  revert out. induction l as [ | x l IH]; intros out; cbn [forOfPush].
  - intros [= <-]. reflexivity.
  - destruct (f x) as [y | ]; [ | discriminate].
    destruct (forOfPush f l) as [ys | ]; [ | discriminate].
    intros [= <-]. cbn. f_equal. apply IH. reflexivity.
Qed.

(** Each pushed element comes from the element of the same position. *)
Lemma forOfPush_Forall2 {A B : Type} (f : A -> option B) (l : list A) (out : list B) :
  forOfPush f l = Some out -> Forall2 (fun x y => f x = Some y) l out.
Proof.
  revert out. induction l as [ | x l IH]; intros out; cbn [forOfPush].
  - intros [= <-]. constructor.
  - destruct (f x) as [y | ] eqn:Hfx; [ | discriminate].
    destruct (forOfPush f l) as [ys | ]; [ | discriminate].
    intros [= <-]. constructor; [assumption | apply IH; reflexivity].
Qed.

Lemma forOfPush_Some {A B : Type} (f : A -> option B) (l : list A) :
  Forall (fun x => exists y, f x = Some y) l ->
  exists out, forOfPush f l = Some out.
Proof.
  induction 1 as [ | x l (y & Hy) _ (ys & Hys)]; cbn [forOfPush].
  - eexists. reflexivity.
  - rewrite Hy, Hys. eexists. reflexivity.
Qed.

End JSArrayFacts.

(** ** The keyword rankings *)

Module StorageFacts.
Import JS Storage JSArray JSArrayFacts.

Lemma contribution_falsy (v : option Z) : truthy v = false -> contribution v = 0.
Proof. intros Ht. unfold contribution. rewrite Ht. reflexivity. Qed.

Lemma contribution_truthy (v : option Z) :
  truthy v = true -> contribution v = valueOr0 v.
Proof. intros Ht. unfold contribution. rewrite Ht. reflexivity. Qed.

Lemma sumOver_cons {A : Type} (f : A -> Z) (row : A) (rows : list A) :
  sumOver f (row :: rows) = f row + sumOver f rows.
Proof. reflexivity. Qed.

Lemma countMentions_from
  (keywordValue : string) (rows : list MentionRow) (a b c d : Z) :
  forEach rows (countMention keywordValue) (a, b, c, d)
  = (a + Z.of_nat (List.length (filter (mentions keywordValue) rows)),
     b + sumOver (fun row => contribution (sentimentScore row))
           (filter (mentions keywordValue) rows),
     c + sumOver (fun row => contribution (performanceScore row))
           (filter (mentions keywordValue) rows),
     d + Z.of_nat (List.length
           (filter (fun row => truthy (sentimentScore row))
                   (filter (mentions keywordValue) rows)))).
Proof.
  unfold forEach. revert a b c d.
  induction rows as [ | row rows IH]; intros a b c d;
    cbn [fold_left filter].
  - cbn [List.length sumOver fold_right]. change (Z.of_nat 0) with 0.
    rewrite !Z.add_0_r. reflexivity.
  - unfold countMention at 2. destruct (mentions keywordValue row).
    + rewrite !sumOver_cons. cbn [filter List.length].
      destruct (truthy (sentimentScore row)) eqn:Hs;
        destruct (truthy (performanceScore row)) eqn:Hp;
        rewrite IH; cbn [List.length]; rewrite ?Nat2Z.inj_succ;
        rewrite ?(contribution_truthy _ Hs), ?(contribution_truthy _ Hp),
          ?(contribution_falsy _ Hs), ?(contribution_falsy _ Hp);
        (apply f_equal2; [apply f_equal2; [apply f_equal2 | ] | ]); lia.
    + apply IH.
Qed.

(** The counters in closed form: the analyses that name the keyword, the
    sums of their non-zero scores, and those with a non-zero sentiment
    score. *)
Lemma countMentions_closed (keywordValue : string) (rows : list MentionRow) :
  countMentions keywordValue rows
  = (Z.of_nat (List.length (filter (mentions keywordValue) rows)),
     sumOver (fun row => contribution (sentimentScore row))
       (filter (mentions keywordValue) rows),
     sumOver (fun row => contribution (performanceScore row))
       (filter (mentions keywordValue) rows),
     Z.of_nat (List.length
       (filter (fun row => truthy (sentimentScore row))
               (filter (mentions keywordValue) rows)))).
Proof. unfold countMentions. rewrite countMentions_from. reflexivity. Qed.

Lemma contribution_range (v : option Z) (L U : Z) :
  (forall z, v = Some z -> z <> 0 -> L <= z <= U) ->
  truthy v = true -> L <= contribution v <= U.
Proof.
  intros Hv Ht. unfold contribution. rewrite Ht.
  destruct v as [z | ]; cbn in Ht |- *; [ | discriminate].
  apply Hv; [reflexivity | ]. intros ->. discriminate.
Qed.

(** The sum of the scores lies between [L] and [U] times the number of
    non-zero scores, when each non-zero score lies between [L] and [U]. *)
Lemma sumOver_contribution_bounds
  {A : Type} (score : A -> option Z) (rows : list A) (L U : Z) :
  Forall (fun row => forall z, score row = Some z -> z <> 0 -> L <= z <= U)
         rows ->
  L * Z.of_nat (List.length (filter (fun row => truthy (score row)) rows))
  <= sumOver (fun row => contribution (score row)) rows
  <= U * Z.of_nat (List.length (filter (fun row => truthy (score row)) rows)).
Proof.
  induction 1 as [ | row rows Hrow _ IH]; cbn [filter sumOver fold_right].
  - cbn. lia.
  - fold (sumOver (fun row => contribution (score row)) rows).
    destruct (truthy (score row)) eqn:Ht.
    + pose proof (contribution_range _ L U Hrow Ht). cbn [List.length]. lia.
    + rewrite (contribution_falsy _ Ht). lia.
Qed.

Lemma Forall_filter {A : Type} (P : A -> Prop) (f : A -> bool) (l : list A) :
  Forall P l -> Forall P (filter f l).
Proof.
  rewrite !Forall_forall. intros H x Hx. apply filter_In in Hx.
  apply H. tauto.
Qed.

Lemma scoreInRange_nonzero (v : option Z) :
  scoreInRange v -> forall z, v = Some z -> z <> 0 -> 0 <= z <= 100.
Proof. intros Hv z ->. cbn in Hv. lia. Qed.

Lemma rankingOf_keyword (keywordValue : string) (rows : list MentionRow) (r : Ranking) :
  rankingOf keywordValue rows = Some r -> keyword r = keywordValue.
Proof.
  unfold rankingOf.
  destruct (countMentions keywordValue rows) as [[[tm ts] tp] mc].
  destruct (if 0 <? mc then _ else _) as [s | ]; [ | discriminate].
  destruct (if 0 <? tm then _ else _) as [p | ]; [ | discriminate].
  intros [= <-]. reflexivity.
Qed.

(** One keyword over rows the application wrote: the entry exists, counts
    at most the rows, and its averages are scores from 0 to 100. *)
Lemma rankingOf_range (keywordValue : string) (rows : list MentionRow) :
  validMentionRows rows ->
  exists r,
    rankingOf keywordValue rows = Some r
    /\ keyword r = keywordValue
    /\ 0 <= totalMentions r <= Z.of_nat (List.length rows)
    /\ 0 <= avgSentimentScore r <= 100
    /\ 0 <= avgPerformanceScore r <= 100.
Proof.
  unfold validMentionRows, maxArrayLength. intros (Hlen & Hrows).
  unfold rankingOf. rewrite countMentions_closed.
  set (M := filter (mentions keywordValue) rows).
  set (S := filter (fun row => truthy (sentimentScore row)) M).
  assert (HM : (List.length M <= List.length rows)%nat)
    by apply filter_length_le.
  assert (HS : (List.length S <= List.length M)%nat)
    by apply filter_length_le.
  assert (HrowsM : Forall (fun row => scoreInRange (sentimentScore row)
                             /\ scoreInRange (performanceScore row)) M)
    by (apply Forall_filter; assumption).
  pose proof (sumOver_contribution_bounds sentimentScore M 0 100) as Hsent.
  pose proof (sumOver_contribution_bounds performanceScore M 0 100) as Hperf.
  fold S in Hsent.
  assert (Hsent' : 0 * Z.of_nat (List.length S)
                   <= sumOver (fun row => contribution (sentimentScore row)) M
                   <= 100 * Z.of_nat (List.length S)).
  { apply Hsent. eapply Forall_impl; [ | exact HrowsM].
    intros row (H1 & _). apply scoreInRange_nonzero. assumption. }
  assert (Hperf' :
    0 <= sumOver (fun row => contribution (performanceScore row)) M
      <= 100 * Z.of_nat (List.length M)).
  { assert (Hp : 0 * Z.of_nat (List.length
                    (filter (fun row => truthy (performanceScore row)) M))
                 <= sumOver (fun row => contribution (performanceScore row)) M
                 <= 100 * Z.of_nat (List.length
                    (filter (fun row => truthy (performanceScore row)) M))).
    { apply Hperf. eapply Forall_impl; [ | exact HrowsM].
      intros row (_ & H2). apply scoreInRange_nonzero. assumption. }
    pose proof (filter_length_le
                  (fun row => truthy (performanceScore row)) M). lia. }
  clear Hsent Hperf.
  set (ts := sumOver (fun row => contribution (sentimentScore row)) M) in *.
  set (tp := sumOver (fun row => contribution (performanceScore row)) M) in *.
  assert (H32 : 2 ^ 32 - 1 = 4294967295) by reflexivity.
  assert (H53 : 2 ^ 53 = 9007199254740992) by reflexivity.
  assert (Hs : exists s,
    (if 0 <? Z.of_nat (List.length S)
     then roundedMean ts (Z.of_nat (List.length S)) else Some 0) = Some s
    /\ 0 <= s <= 100).
  { destruct (0 <? Z.of_nat (List.length S)) eqn:Hpos.
    - apply Z.ltb_lt in Hpos.
      apply MeanFacts.roundedMean_between; rewrite ?H53; lia.
    - exists 0. split; [reflexivity | lia]. }
  assert (Hp : exists p,
    (if 0 <? Z.of_nat (List.length M)
     then roundedMean tp (Z.of_nat (List.length M)) else Some 0) = Some p
    /\ 0 <= p <= 100).
  { destruct (0 <? Z.of_nat (List.length M)) eqn:Hpos.
    - apply Z.ltb_lt in Hpos.
      apply MeanFacts.roundedMean_between; rewrite ?H53; lia.
    - exists 0. split; [reflexivity | lia]. }
  destruct Hs as (s & -> & Hs). destruct Hp as (p & -> & Hp).
  eexists. split; [reflexivity | ].
  cbn [keyword totalMentions avgSentimentScore avgPerformanceScore].
  repeat split; lia.
Qed.

Lemma compareRankings_before (a b : Ranking) :
  before compareRankings a b <-> ranksBefore a b.
Proof.
  unfold before, compareRankings, ranksBefore.
  destruct (totalMentions b =? totalMentions a) eqn:Heq; cbn [negb].
  - apply Z.eqb_eq in Heq. lia.
  - apply Z.eqb_neq in Heq. lia.
Qed.

Lemma compareRankings_total (a b : Ranking) :
  before compareRankings a b \/ before compareRankings b a.
Proof. rewrite !compareRankings_before. unfold ranksBefore. lia. Qed.

Lemma compareRankings_trans (a b c : Ranking) :
  before compareRankings a b -> before compareRankings b c ->
  before compareRankings a c.
Proof. rewrite !compareRankings_before. unfold ranksBefore. lia. Qed.

Lemma StronglySorted_impl {A : Type} (R R' : A -> A -> Prop) (l : list A) :
  (forall a b, R a b -> R' a b) -> StronglySorted R l -> StronglySorted R' l.
Proof.
  intros HR. induction 1 as [ | x l _ IH Hall]; constructor; [assumption | ].
  eapply Forall_impl; [ | exact Hall]. intros b. apply HR.
Qed.

Lemma getKeywordRankings_unsorted
  (domainKeywords : list Keyword) (mentionResults : Keyword -> list MentionRow)
  (rankings : list Ranking) :
  getKeywordRankings domainKeywords mentionResults = Some rankings ->
  exists pushed,
    JSArray.forOfPush
      (fun keyword => rankingOf (value keyword) (mentionResults keyword))
      domainKeywords = Some pushed
    /\ rankings = JSArray.sort pushed compareRankings.
Proof.
  unfold getKeywordRankings.
  destruct (JSArray.forOfPush _ domainKeywords) as [pushed | ];
    [ | discriminate].
  intros [= <-]. exists pushed. split; reflexivity.
Qed.

(** X5: [getKeywordRankings] returns one entry for each keyword of the
    domain, a keyword stored twice getting two entries: the keywords of
    the entries are a rearrangement of the keywords of the domain. *)
Theorem rankings_one_per_keyword
  (domainKeywords : list Keyword) (mentionResults : Keyword -> list MentionRow)
  (rankings : list Ranking) :
  getKeywordRankings domainKeywords mentionResults = Some rankings ->
  Permutation (map keyword rankings) (map value domainKeywords)
  /\ List.length rankings = List.length domainKeywords.
Proof.
  intros Hget.
  destruct (getKeywordRankings_unsorted _ _ _ Hget) as (pushed & Hpush & ->).
  assert (Hmap : map keyword pushed = map value domainKeywords).
  { pose proof (forOfPush_Forall2 _ _ _ Hpush) as HF. clear Hget Hpush.
    induction HF as [ | k r ks rs Hr _ IH]; cbn [map]; [reflexivity | ].
    rewrite (rankingOf_keyword _ _ _ Hr), IH. reflexivity. }
  assert (Hperm : Permutation (JSArray.sort pushed compareRankings) pushed)
    by apply sort_Permutation.
  split.
  - rewrite <- Hmap. apply Permutation_map. assumption.
  - rewrite (Permutation_length Hperm).
    eapply forOfPush_length. eassumption.
Qed.

Lemma rankings_one_per_keyword_witness :
  let domainKeywords :=
    [ {| keywordId := 1; keywordDomainId := 7; value := "cloud" |};
      {| keywordId := 2; keywordDomainId := 7; value := "pricing" |} ] in
  let mentionResults := fun _ : Keyword =>
    [ {| sentimentScore := Some 80; performanceScore := Some 90;
         keywordRelevance := Some ["pricing"] |};
      {| sentimentScore := Some 0; performanceScore := None;
         keywordRelevance := Some ["pricing"; "cloud"] |} ] in
  let rankings :=
    [ {| keyword := "pricing"; totalMentions := 2;
         avgSentimentScore := 80; avgPerformanceScore := 45 |};
      {| keyword := "cloud"; totalMentions := 1;
         avgSentimentScore := 0; avgPerformanceScore := 0 |} ] in
  getKeywordRankings domainKeywords mentionResults = Some rankings
  /\ Permutation (map keyword rankings) (map value domainKeywords)
  /\ List.length rankings = List.length domainKeywords.
Proof.
  cbv zeta.
  match goal with
  | |- getKeywordRankings ?ks ?f = Some ?rs /\ _ =>
      exact (conj eq_refl (rankings_one_per_keyword ks f rs eq_refl))
  end.
Defined.

(** X6: the rankings come sorted: every entry has more mentions than each
    entry after it, or as many mentions and an average performance score
    at least as high. *)
Theorem rankings_sorted
  (domainKeywords : list Keyword) (mentionResults : Keyword -> list MentionRow)
  (rankings : list Ranking) :
  getKeywordRankings domainKeywords mentionResults = Some rankings ->
  StronglySorted ranksBefore rankings.
Proof.
  intros Hget.
  destruct (getKeywordRankings_unsorted _ _ _ Hget) as (pushed & _ & ->).
  apply StronglySorted_impl with (R := before compareRankings).
  - intros a b. apply compareRankings_before.
  - apply sort_sorted.
    + apply compareRankings_total.
    + apply compareRankings_trans.
Qed.

Lemma rankings_sorted_witness :
  let domainKeywords :=
    [ {| keywordId := 1; keywordDomainId := 7; value := "cloud" |};
      {| keywordId := 2; keywordDomainId := 7; value := "pricing" |};
      {| keywordId := 3; keywordDomainId := 7; value := "zebra" |} ] in
  let mentionResults := fun _ : Keyword =>
    [ {| sentimentScore := Some 80; performanceScore := Some 90;
         keywordRelevance := Some ["pricing"] |};
      {| sentimentScore := Some 60; performanceScore := Some 70;
         keywordRelevance := Some ["cloud"] |} ] in
  let rankings :=
    [ {| keyword := "pricing"; totalMentions := 1;
         avgSentimentScore := 80; avgPerformanceScore := 90 |};
      {| keyword := "cloud"; totalMentions := 1;
         avgSentimentScore := 60; avgPerformanceScore := 70 |};
      {| keyword := "zebra"; totalMentions := 0;
         avgSentimentScore := 0; avgPerformanceScore := 0 |} ] in
  getKeywordRankings domainKeywords mentionResults = Some rankings
  /\ StronglySorted ranksBefore rankings.
Proof.
  cbv zeta.
  match goal with
  | |- getKeywordRankings ?ks ?f = Some ?rs /\ _ =>
      exact (conj eq_refl (rankings_sorted ks f rs eq_refl))
  end.
Defined.

(** X7: when every query returned rows the application wrote (scores
    null or from 0 to 100, at most [2 ^ 32 - 1] rows), the rankings are
    well defined, and every entry belongs to a keyword of the domain,
    counts at most the rows of its query, and has averages from 0 to
    100. *)
Theorem rankings_in_range
  (domainKeywords : list Keyword) (mentionResults : Keyword -> list MentionRow) :
  (forall keyword, In keyword domainKeywords ->
                   validMentionRows (mentionResults keyword)) ->
  exists rankings,
    getKeywordRankings domainKeywords mentionResults = Some rankings
    /\ Forall
         (fun r =>
            (exists k, In k domainKeywords /\ keyword r = value k
                       /\ 0 <= totalMentions r
                          <= Z.of_nat (List.length (mentionResults k)))
            /\ 0 <= avgSentimentScore r <= 100
            /\ 0 <= avgPerformanceScore r <= 100)
         rankings.
Proof.
  intros Hvalid. unfold getKeywordRankings.
  destruct (forOfPush_Some
              (fun keyword => rankingOf (value keyword) (mentionResults keyword))
              domainKeywords) as (pushed & Hpush).
  { apply Forall_forall. intros k Hk.
    destruct (rankingOf_range (value k) _ (Hvalid k Hk)) as (r & Hr & _).
    exists r. assumption. }
  rewrite Hpush. eexists. split; [reflexivity | ].
  apply Forall_forall. intros r Hr.
  apply (Permutation_in _ (sort_Permutation compareRankings pushed)) in Hr.
  pose proof (forOfPush_Forall2 _ _ _ Hpush) as HF. clear Hpush.
  assert (Hk : exists k, In k domainKeywords
                         /\ rankingOf (value k) (mentionResults k) = Some r).
  { clear Hvalid. induction HF as [ | k r' ks rs Hr' _ IH].
    - destruct Hr.
    - destruct Hr as [<- | Hr].
      + exists k. split; [left; reflexivity | assumption].
      + destruct (IH Hr) as (k0 & Hin & Hk0).
        exists k0. split; [right; assumption | assumption]. }
  destruct Hk as (k & Hin & Hk).
  destruct (rankingOf_range (value k) _ (Hvalid k Hin))
    as (r0 & Hr0 & Hkey & Hm & Hs & Hp).
  rewrite Hk in Hr0. injection Hr0 as <-.
  split; [exists k; repeat split; solve [assumption | lia] | ].
  split; assumption.
Qed.

Lemma rankings_in_range_witness :
  let domainKeywords :=
    [ {| keywordId := 1; keywordDomainId := 7; value := "cloud" |} ] in
  let mentionResults := fun _ : Keyword =>
    [ {| sentimentScore := Some 80; performanceScore := Some 90;
         keywordRelevance := Some ["cloud"] |};
      {| sentimentScore := None; performanceScore := Some 35;
         keywordRelevance := None |} ] in
  (forall keyword, In keyword domainKeywords ->
                   validMentionRows (mentionResults keyword))
  /\ exists rankings,
       getKeywordRankings domainKeywords mentionResults = Some rankings
       /\ Forall
            (fun r =>
               (exists k, In k domainKeywords /\ keyword r = value k
                          /\ 0 <= totalMentions r
                             <= Z.of_nat (List.length (mentionResults k)))
               /\ 0 <= avgSentimentScore r <= 100
               /\ 0 <= avgPerformanceScore r <= 100)
            rankings.
Proof.
  cbv zeta.
  assert (Hvalid : forall keyword : Keyword,
    In keyword [ {| keywordId := 1; keywordDomainId := 7; value := "cloud" |} ] ->
    validMentionRows
      [ {| sentimentScore := Some 80; performanceScore := Some 90;
           keywordRelevance := Some ["cloud"] |};
        {| sentimentScore := None; performanceScore := Some 35;
           keywordRelevance := None |} ]).
  { intros keyword _. unfold validMentionRows, maxArrayLength. split.
    - cbn. lia.
    - repeat constructor; cbn; lia. }
  split; [exact Hvalid | ].
  exact (rankings_in_range _ _ Hvalid).
Defined.

Lemma scored_mentions_filter (keywordValue : string) (rows : list MentionRow) :
  filter (fun row => truthy (sentimentScore row))
    (filter (mentions keywordValue)
       (filter (fun row => truthy (sentimentScore row)) rows))
  = filter (fun row => truthy (sentimentScore row))
      (filter (mentions keywordValue) rows).
Proof.
  induction rows as [ | row rows IH]; cbn [filter]; [reflexivity | ].
  destruct (truthy (sentimentScore row)) eqn:Hs; cbn [filter];
    destruct (mentions keywordValue row); cbn [filter];
    rewrite ?Hs, IH; reflexivity.
Qed.

Lemma scored_mentions_sum (keywordValue : string) (rows : list MentionRow) :
  sumOver (fun row => contribution (sentimentScore row))
    (filter (mentions keywordValue)
       (filter (fun row => truthy (sentimentScore row)) rows))
  = sumOver (fun row => contribution (sentimentScore row))
      (filter (mentions keywordValue) rows).
Proof.
  induction rows as [ | row rows IH]; cbn [filter]; [reflexivity | ].
  destruct (truthy (sentimentScore row)) eqn:Hs; cbn [filter];
    destruct (mentions keywordValue row); cbn [filter];
    rewrite ?sumOver_cons, IH; try reflexivity.
  rewrite (contribution_falsy _ Hs). lia.
Qed.

(** X8: analyses without a sentiment score (null, or 0) do not enter the
    average sentiment of a keyword: dropping them from the rows leaves
    the keyword's [avgSentimentScore] as it was. *)
Theorem ranking_ignores_missing_sentiment
  (keywordValue : string) (rows : list MentionRow) (r r' : Ranking) :
  rankingOf keywordValue rows = Some r ->
  rankingOf keywordValue
    (filter (fun row => truthy (sentimentScore row)) rows) = Some r' ->
  avgSentimentScore r' = avgSentimentScore r.
Proof.
  unfold rankingOf. rewrite !countMentions_closed.
  set (hasScore := fun row : MentionRow => truthy (sentimentScore row)).
  pose proof (scored_mentions_filter keywordValue rows) as Hcount.
  pose proof (scored_mentions_sum keywordValue rows) as Hsum.
  fold hasScore in Hcount, Hsum.
  rewrite Hcount, Hsum.
  destruct (if 0 <? Z.of_nat (List.length
              (filter hasScore (filter (mentions keywordValue) rows)))
            then _ else _) as [s | ]; [ | discriminate].
  destruct (if 0 <? Z.of_nat (List.length
              (filter (mentions keywordValue) rows)) then _ else _)
    as [p | ]; [ | discriminate].
  destruct (if 0 <? Z.of_nat (List.length
              (filter (mentions keywordValue) (filter hasScore rows)))
            then _ else _) as [p' | ]; [ | discriminate].
  intros [= <-] [= <-]. reflexivity.
Qed.

Lemma ranking_ignores_missing_sentiment_witness :
  let rows :=
    [ {| sentimentScore := Some 100; performanceScore := Some 100;
         keywordRelevance := Some ["cloud"] |};
      {| sentimentScore := Some 0; performanceScore := Some 40;
         keywordRelevance := Some ["cloud"] |} ] in
  let r := {| keyword := "cloud"; totalMentions := 2;
              avgSentimentScore := 100; avgPerformanceScore := 70 |} in
  let r' := {| keyword := "cloud"; totalMentions := 1;
               avgSentimentScore := 100; avgPerformanceScore := 100 |} in
  rankingOf "cloud" rows = Some r
  /\ rankingOf "cloud"
       (filter (fun row => truthy (sentimentScore row)) rows) = Some r'
  /\ avgSentimentScore r' = avgSentimentScore r.
Proof.
  cbv zeta.
  match goal with
  | |- rankingOf ?k ?rows = Some ?r /\ _ = Some ?r' /\ _ =>
      exact (conj eq_refl (conj eq_refl
        (ranking_ignores_missing_sentiment k rows r r' eq_refl eq_refl)))
  end.
Defined.

End StorageFacts.

(** ** The performance by engine *)

Module PerformanceFacts.
Import JS Storage PerformanceByEngine JSArrayFacts StorageFacts.

Lemma get_None (engineStats : statsByEngine) (key : string) :
  get engineStats key = None <-> ~ In key (map fst engineStats).
Proof.
  induction engineStats as [ | [k stats] rest IH]; cbn [get map fst In].
  - tauto.
  - destruct (String.eqb k key) eqn:Heq.
    + apply String.eqb_eq in Heq. split; [discriminate | tauto].
    + apply String.eqb_neq in Heq. rewrite IH. tauto.
Qed.

Lemma map_fst_update (key : string) (f : EngineStats -> EngineStats)
  (engineStats : statsByEngine) :
  map fst (update key f engineStats) = map fst engineStats.
Proof.
  unfold update. rewrite map_map. apply map_ext.
  intros [k stats]. destruct (String.eqb k key); reflexivity.
Qed.

Lemma In_update (key : string) (f : EngineStats -> EngineStats)
  (engineStats : statsByEngine) (k : string) (stats' : EngineStats) :
  In (k, stats') (update key f engineStats) ->
  exists stats,
    In (k, stats) engineStats
    /\ stats' = if String.eqb k key then f stats else stats.
Proof.
  unfold update. rewrite in_map_iff. intros ([k0 stats] & Heq & Hin).
  destruct (String.eqb k0 key) eqn:Hk; injection Heq as <- <-;
    exists stats; rewrite Hk; split; auto.
Qed.

Lemma sumOver_app {A : Type} (f : A -> Z) (l1 l2 : list A) :
  sumOver f (l1 ++ l2) = sumOver f l1 + sumOver f l2.
Proof.
  induction l1 as [ | x l1 IH]; cbn [app]; rewrite ?sumOver_cons; [ | lia].
  reflexivity.
Qed.

Lemma rowsOf_snoc (engineName : string) (results : list AnalysisRow)
  (result : AnalysisRow) :
  rowsOf engineName (results ++ [result])
  = (rowsOf engineName results
     ++ if String.eqb (engine result) engineName then [result] else [])%list.
Proof. unfold rowsOf. rewrite filter_app. reflexivity. Qed.

Lemma statsOf_snoc_other (engineName : string) (results : list AnalysisRow)
  (result : AnalysisRow) :
  engine result <> engineName ->
  statsOf engineName (results ++ [result]) = statsOf engineName results.
Proof.
  intros Hne. unfold statsOf. rewrite rowsOf_snoc.
  apply String.eqb_neq in Hne. rewrite Hne, app_nil_r. reflexivity.
Qed.

Lemma statsOf_snoc_same (results : list AnalysisRow) (result : AnalysisRow) :
  statsOf (engine result) (results ++ [result])
  = addResult result (statsOf (engine result) results).
Proof.
  unfold statsOf, addResult. rewrite rowsOf_snoc, String.eqb_refl.
  cbn [count totalSentiment totalPerformance totalResponseTime].
  rewrite !sumOver_app, !sumOver_cons, length_app. cbn [sumOver fold_right List.length].
  rewrite Nat2Z.inj_add. unfold contribution.
  destruct (truthy (sentimentScore result));
    destruct (truthy (performanceScore result));
    destruct (truthy (responseTime result));
    f_equal; lia.
Qed.

Lemma statsOf_absent (engineName : string) (results : list AnalysisRow) :
  ~ In engineName (map engine results) ->
  statsOf engineName results
  = {| totalSentiment := 0; totalPerformance := 0;
       totalResponseTime := 0; count := 0 |}.
Proof.
  intros Hnot. unfold statsOf.
  assert (Hempty : rowsOf engineName results = []).
  { unfold rowsOf. induction results as [ | row rows IH]; [reflexivity | ].
    cbn [filter map In] in *.
    destruct (String.eqb (engine row) engineName) eqn:Heq.
    - apply String.eqb_eq in Heq. tauto.
    - apply IH. tauto. }
  rewrite Hempty. reflexivity.
Qed.

Lemma recordResult_holds (results : list AnalysisRow) (result : AnalysisRow)
  (engineStats : statsByEngine) :
  inherited (engine result) = false ->
  holds results engineStats ->
  holds (results ++ [result]) (recordResult engineStats result).
Proof.
  intros Hown (Hnodup & Hkeys & Hstats). unfold recordResult. rewrite Hown.
  set (added := match get engineStats (engine result) with
                | None => _
                | Some _ => engineStats
                end).
  assert (Hadded : NoDup (map fst added)
    /\ (forall k, In k (map fst added)
                  <-> In k (map engine (results ++ [result])))
    /\ (forall k stats, In (k, stats) added -> stats = statsOf k results)).
  { unfold added. destruct (get engineStats (engine result)) eqn:Hget.
    - assert (Hin : In (engine result) (map fst engineStats)).
      { destruct (in_dec string_dec (engine result) (map fst engineStats))
          as [Hin | Hnot]; [assumption | ].
        apply get_None in Hnot. congruence. }
      split; [assumption | ]. split; [ | assumption].
      intros k. rewrite map_app, in_app_iff, <- Hkeys. cbn [map In].
      split; [tauto | ]. intros [H | [<- | []]]; assumption.
    - apply get_None in Hget. split; [ | split].
      + rewrite map_app. cbn [map fst].
        apply NoDup_app_remove_l with (l := []). cbn [app].
        apply Permutation_NoDup with (l := engine result :: map fst engineStats).
        * apply Permutation_cons_append.
        * constructor; assumption.
      + intros k. rewrite !map_app, !in_app_iff, Hkeys. cbn [map fst In].
        tauto.
      + intros k stats Hin. apply in_app_iff in Hin.
        destruct Hin as [Hin | [[= <- <-] | []]]; [apply Hstats, Hin | ].
        symmetry. apply statsOf_absent. rewrite <- Hkeys. assumption. }
  clearbody added. destruct Hadded as (Hnd & Hk & Hs).
  split; [ | split].
  - rewrite map_fst_update. assumption.
  - intros k. rewrite map_fst_update. apply Hk.
  - intros k stats' Hin. apply In_update in Hin.
    destruct Hin as (stats & Hin & ->). rewrite (Hs _ _ Hin).
    destruct (String.eqb k (engine result)) eqn:Heq.
    + apply String.eqb_eq in Heq. subst k. symmetry. apply statsOf_snoc_same.
    + apply String.eqb_neq in Heq. symmetry. apply statsOf_snoc_other.
      congruence.
Qed.

Lemma ownRows_snoc (results : list AnalysisRow) (result : AnalysisRow) :
  ownRows (results ++ [result])
  = (ownRows results
     ++ if inherited (engine result) then [] else [result])%list.
Proof.
  unfold ownRows. rewrite filter_app. cbn [filter].
  destruct (inherited (engine result)); reflexivity.
Qed.

(** After the loop, [engineStats] holds the stats of the rows whose
    engine is no inherited key. *)
Lemma forEach_holds (results : list AnalysisRow) :
  holds (ownRows results) (forEach results recordResult []).
Proof.
  unfold forEach. induction results as [ | result results IH] using rev_ind.
  - cbn. split; [constructor | ]. split; [tauto | intros k stats []].
  - rewrite fold_left_app, ownRows_snoc. cbn [fold_left].
    destruct (inherited (engine result)) eqn:Hown.
    + unfold recordResult. rewrite Hown, app_nil_r. assumption.
    + apply recordResult_holds; assumption.
Qed.

Lemma In_engine_ownRows (engineName : string) (results : list AnalysisRow) :
  In engineName (map engine (ownRows results))
  <-> In engineName (map engine results) /\ inherited engineName = false.
Proof.
  unfold ownRows. rewrite !in_map_iff. split.
  - intros (row & <- & Hin). apply filter_In in Hin.
    destruct Hin as (Hin & Hown). apply negb_true_iff in Hown.
    split; [exists row; tauto | assumption].
  - intros ((row & <- & Hin) & Hown). exists row.
    split; [reflexivity | ]. apply filter_In.
    split; [assumption | apply negb_true_iff; assumption].
Qed.

Lemma rowsOf_ownRows (engineName : string) (results : list AnalysisRow) :
  inherited engineName = false ->
  rowsOf engineName (ownRows results) = rowsOf engineName results.
Proof.
  intros Hown. unfold rowsOf, ownRows.
  induction results as [ | row rows IH]; [reflexivity | ].
  cbn [filter]. destruct (String.eqb (engine row) engineName) eqn:Heq.
  - apply String.eqb_eq in Heq. rewrite Heq, Hown. cbn [negb filter].
    rewrite <- Heq at 1. rewrite String.eqb_refl. f_equal. exact IH.
  - destruct (negb (inherited (engine row))); [ | exact IH].
    cbn [filter]. rewrite Heq. exact IH.
Qed.

Lemma entryOf_fields (entry : string * EngineStats) (e : Entry.t) :
  entryOf entry = Some e ->
  Entry.engine e = fst entry /\ Entry.totalAnalyses e = count (snd entry).
Proof.
  destruct entry as [k stats]. unfold entryOf.
  destruct (average (totalSentiment stats) (count stats)); [ | discriminate].
  destruct (average (totalPerformance stats) (count stats)); [ | discriminate].
  destruct (average (totalResponseTime stats) (count stats)); [ | discriminate].
  intros [= <-]. split; reflexivity.
Qed.

(** Among keys without repetition, exactly one is the engine of a row. *)
Lemma one_key_matches (keys : list string) (engineName : string) :
  NoDup keys -> In engineName keys ->
  sumOver (fun k => if String.eqb engineName k then 1 else 0) keys = 1.
Proof.
  induction 1 as [ | k keys Hnotin _ IH]; intros Hin; [destruct Hin | ].
  rewrite sumOver_cons. destruct (String.eqb engineName k) eqn:Heq.
  - apply String.eqb_eq in Heq. subst k.
    assert (Hzero : sumOver (fun k => if String.eqb engineName k then 1 else 0)
                      keys = 0).
    { clear IH Hin. induction keys as [ | k keys IHk]; [reflexivity | ].
      rewrite sumOver_cons. cbn [In] in Hnotin.
      destruct (String.eqb engineName k) eqn:Heq.
      - apply String.eqb_eq in Heq. exfalso. apply Hnotin. left.
        symmetry. assumption.
      - rewrite IHk by tauto. reflexivity. }
    lia.
  - apply String.eqb_neq in Heq. destruct Hin as [-> | Hin]; [congruence | ].
    rewrite IH by assumption. reflexivity.
Qed.

(** The rows of the engines add up to the rows. *)
Lemma rowsOf_partition (keys : list string) (results : list AnalysisRow) :
  NoDup keys ->
  (forall result, In result results -> In (engine result) keys) ->
  sumOver (fun k => Z.of_nat (List.length (rowsOf k results))) keys
  = Z.of_nat (List.length results).
Proof.
  intros Hnodup. induction results as [ | result results IH]; intros Hkeys.
  - cbn [rowsOf filter List.length]. clear. induction keys as [ | k keys IH];
      [reflexivity | rewrite sumOver_cons, IH; reflexivity].
  - assert (Hsplit :
      sumOver (fun k => Z.of_nat (List.length (rowsOf k (result :: results))))
        keys
      = sumOver (fun k => if String.eqb (engine result) k then 1 else 0) keys
        + sumOver (fun k => Z.of_nat (List.length (rowsOf k results))) keys).
    { clear. induction keys as [ | k keys IH]; [reflexivity | ].
      rewrite !sumOver_cons, IH. unfold rowsOf at 1. cbn [filter].
      destruct (String.eqb (engine result) k); cbn [List.length];
        fold (rowsOf k results); lia. }
    rewrite Hsplit, IH, one_key_matches.
    + cbn [List.length]. lia.
    + assumption.
    + apply Hkeys. left. reflexivity.
    + intros r Hr. apply Hkeys. right. assumption.
Qed.

(** The entries made from stats that hold the rows [rows]. *)
Lemma entries_count_rows
  (rows : list AnalysisRow) (engineStats : statsByEngine)
  (entries : list Entry.t) :
  holds rows engineStats ->
  JSArray.forOfPush entryOf engineStats = Some entries ->
  NoDup (map Entry.engine entries)
  /\ (forall engineName,
        In engineName (map Entry.engine entries)
        <-> In engineName (map engine rows))
  /\ Forall
       (fun e =>
          Entry.totalAnalyses e
          = Z.of_nat (List.length (rowsOf (Entry.engine e) rows))
          /\ 1 <= Entry.totalAnalyses e)
       entries
  /\ sumOver Entry.totalAnalyses entries = Z.of_nat (List.length rows).
Proof.
  intros (Hnodup & Hkeys & Hstats) Hpush.
  pose proof (forOfPush_Forall2 _ _ _ Hpush) as HF. clear Hpush.
  assert (Hnames : map Entry.engine entries = map fst engineStats).
  { clear -HF. induction HF as [ | entry e rest es He _ IH]; [reflexivity | ].
    cbn [map]. rewrite IH, (proj1 (entryOf_fields _ _ He)). reflexivity. }
  assert (Hcounts : Forall2
    (fun entry e => Entry.engine e = fst entry
                    /\ Entry.totalAnalyses e
                       = Z.of_nat (List.length (rowsOf (fst entry) rows)))
    engineStats entries).
  { clear Hnames Hnodup Hkeys.
    assert (Hall : forall entry, In entry engineStats ->
                                 snd entry = statsOf (fst entry) rows).
    { intros [k stats] Hin. apply Hstats. assumption. }
    clear Hstats.
    induction HF as [ | entry e rest es He _ IH]; constructor.
    - destruct (entryOf_fields _ _ He) as (Hn & Hc). split; [assumption | ].
      rewrite Hc, (Hall entry (or_introl eq_refl)). reflexivity.
    - apply IH. intros entry' Hin. apply Hall. right. assumption. }
  split; [rewrite Hnames; assumption | ].
  split; [intros engineName; rewrite Hnames; apply Hkeys | ].
  split.
  - apply Forall_forall. intros e He.
    assert (Hentry : exists entry,
      In entry engineStats /\ Entry.engine e = fst entry
      /\ Entry.totalAnalyses e
         = Z.of_nat (List.length (rowsOf (fst entry) rows))).
    { clear -Hcounts He. induction Hcounts as [ | entry e' rest es H _ IH].
      - destruct He.
      - destruct He as [<- | He].
        + exists entry. split; [left; reflexivity | assumption].
        + destruct (IH He) as (entry0 & Hin & H0).
          exists entry0. split; [right; assumption | assumption]. }
    destruct Hentry as (entry & Hin & Hname & Hcount).
    rewrite Hname. split; [assumption | ]. rewrite Hcount.
    assert (Hk : In (fst entry) (map engine rows)).
    { apply Hkeys. apply in_map. assumption. }
    apply in_map_iff in Hk. destruct Hk as (row & Hrow & Hin').
    assert (Hmem : In row (rowsOf (fst entry) rows)).
    { unfold rowsOf. apply filter_In. split; [assumption | ].
      apply String.eqb_eq. assumption. }
    destruct (rowsOf (fst entry) rows); [destruct Hmem | cbn; lia].
  - assert (Hsum :
      sumOver Entry.totalAnalyses entries
      = sumOver (fun k => Z.of_nat (List.length (rowsOf k rows)))
          (map fst engineStats)).
    { clear -Hcounts. induction Hcounts as [ | entry e rest es (_ & H) _ IH];
        [reflexivity | ].
      cbn [map]. rewrite !sumOver_cons, IH, H. reflexivity. }
    rewrite Hsum. apply rowsOf_partition; [assumption | ].
    intros row Hrow. apply Hkeys. apply in_map. assumption.
Qed.


(** X9: [getDomainPerformanceByEngine] returns one entry for each engine
    that has rows, and no other, except that an engine named like a
    property every object inherits ("constructor", "toString", ...) gets
    no entry; the entry counts the rows of its engine, at least one, and
    the counts add up to the number of rows of the engines with an
    entry. *)
Theorem engine_entries_count_rows
  (results : list AnalysisRow) (entries : list Entry.t) :
  getDomainPerformanceByEngine results = Some entries ->
  NoDup (map Entry.engine entries)
  /\ (forall engineName,
        In engineName (map Entry.engine entries)
        <-> In engineName (map engine results)
            /\ inherited engineName = false)
  /\ Forall
       (fun e =>
          Entry.totalAnalyses e
          = Z.of_nat (List.length (rowsOf (Entry.engine e) results))
          /\ 1 <= Entry.totalAnalyses e)
       entries
  /\ sumOver Entry.totalAnalyses entries
     = Z.of_nat (List.length (ownRows results)).
Proof.
  unfold getDomainPerformanceByEngine. cbv zeta. intros Hpush.
  destruct (entries_count_rows _ _ _ (forEach_holds results) Hpush)
    as (Hnodup & Hkeys & Hcounts & Hsum).
  split; [assumption | ].
  split; [intros engineName; rewrite Hkeys; apply In_engine_ownRows | ].
  split; [ | assumption].
  apply Forall_forall. intros e He.
  rewrite Forall_forall in Hcounts. specialize (Hcounts e He).
  rewrite rowsOf_ownRows in Hcounts; [assumption | ].
  apply (In_engine_ownRows (Entry.engine e) results), Hkeys.
  apply in_map. assumption.
Qed.

Lemma engine_entries_count_rows_witness :
  let results :=
    [ {| engine := "openai"; sentimentScore := Some 80;
         performanceScore := Some 95; responseTime := Some 2100 |};
      {| engine := "gemini"; sentimentScore := Some 100;
         performanceScore := Some 100; responseTime := Some 1502 |};
      {| engine := "constructor"; sentimentScore := Some 75;
         performanceScore := Some 85; responseTime := Some 900 |};
      {| engine := "openai"; sentimentScore := None;
         performanceScore := Some 60; responseTime := Some 3900 |} ] in
  let entries :=
    [ {| Entry.engine := "openai"; Entry.avgSentimentScore := 40;
         Entry.avgPerformanceScore := 78; Entry.avgResponseTime := 3000;
         Entry.totalAnalyses := 2 |};
      {| Entry.engine := "gemini"; Entry.avgSentimentScore := 100;
         Entry.avgPerformanceScore := 100; Entry.avgResponseTime := 1502;
         Entry.totalAnalyses := 1 |} ] in
  getDomainPerformanceByEngine results = Some entries
  /\ NoDup (map Entry.engine entries)
  /\ (forall engineName,
        In engineName (map Entry.engine entries)
        <-> In engineName (map engine results)
            /\ inherited engineName = false)
  /\ Forall
       (fun e =>
          Entry.totalAnalyses e
          = Z.of_nat (List.length (rowsOf (Entry.engine e) results))
          /\ 1 <= Entry.totalAnalyses e)
       entries
  /\ sumOver Entry.totalAnalyses entries
     = Z.of_nat (List.length (ownRows results)).
Proof.
  cbv zeta.
  match goal with
  | |- getDomainPerformanceByEngine ?rows = Some ?es /\ _ =>
      exact (conj eq_refl (engine_entries_count_rows rows es eq_refl))
  end.
Defined.

(** The stats of an engine over rows the application wrote. *)
Lemma statsOf_range (maxTime : Z) (engineName : string)
  (results : list AnalysisRow) :
  0 <= maxTime -> Forall (validRow maxTime) results ->
  let n := Z.of_nat (List.length (rowsOf engineName results)) in
  n <= Z.of_nat (List.length results)
  /\ 0 <= totalSentiment (statsOf engineName results) <= 100 * n
  /\ 0 <= totalPerformance (statsOf engineName results) <= 100 * n
  /\ 0 <= totalResponseTime (statsOf engineName results) <= maxTime * n.
Proof.
  intros HT Hvalid n.
  assert (Hrows : Forall (validRow maxTime) (rowsOf engineName results))
    by (apply Forall_filter; assumption).
  assert (Hn : n <= Z.of_nat (List.length results)).
  { unfold n, rowsOf. pose proof (filter_length_le
      (fun result => String.eqb (engine result) engineName) results). lia. }
  split; [assumption | ].
  unfold statsOf. cbn [totalSentiment totalPerformance totalResponseTime].
  fold n.
  pose proof (sumOver_contribution_bounds sentimentScore
                (rowsOf engineName results) 0 100) as Hs.
  pose proof (sumOver_contribution_bounds performanceScore
                (rowsOf engineName results) 0 100) as Hp.
  pose proof (sumOver_contribution_bounds responseTime
                (rowsOf engineName results) 0 maxTime) as Ht.
  pose proof (filter_length_le (fun row => truthy (sentimentScore row))
                (rowsOf engineName results)).
  pose proof (filter_length_le (fun row => truthy (performanceScore row))
                (rowsOf engineName results)).
  pose proof (filter_length_le (fun row => truthy (responseTime row))
                (rowsOf engineName results)).
  assert (Hs' := Hs ltac:(eapply Forall_impl; [ | exact Hrows];
    intros row (Hrow & _); apply scoreInRange_nonzero; assumption)).
  assert (Hp' := Hp ltac:(eapply Forall_impl; [ | exact Hrows];
    intros row (_ & Hrow & _); apply scoreInRange_nonzero; assumption)).
  assert (Ht' := Ht ltac:(eapply Forall_impl; [ | exact Hrows];
    intros row (_ & _ & Hrow) z Hz _; rewrite Hz in Hrow; assumption)).
  unfold n. nia.
Qed.

Lemma average_range (U total count : Z) :
  0 <= count < 2 ^ 53 -> 0 <= total <= U * count -> U * count < 2 ^ 53 ->
  0 <= U < 2 ^ 53 ->
  exists z, average total count = Some z /\ 0 <= z <= U.
Proof.
  intros Hcount Htotal Hbig HU. unfold average.
  destruct (0 <? count) eqn:Hpos.
  - apply Z.ltb_lt in Hpos.
    apply MeanFacts.roundedMean_between; lia.
  - exists 0. split; [reflexivity | lia].
Qed.

(** X10: over rows the application wrote (scores null or from 0 to 100,
    response times null or from 0 to [maxTime], sums below [2 ^ 53]),
    [getDomainPerformanceByEngine] is well defined and every entry has
    average scores from 0 to 100 and an average response time from 0 to
    [maxTime]. *)
Theorem engine_averages_in_range (maxTime : Z) (results : list AnalysisRow) :
  0 <= maxTime < 2 ^ 53 ->
  Z.of_nat (List.length results) <= maxArrayLength ->
  maxTime * Z.of_nat (List.length results) < 2 ^ 53 ->
  Forall (validRow maxTime) results ->
  exists entries,
    getDomainPerformanceByEngine results = Some entries
    /\ Forall
         (fun e =>
            0 <= Entry.avgSentimentScore e <= 100
            /\ 0 <= Entry.avgPerformanceScore e <= 100
            /\ 0 <= Entry.avgResponseTime e <= maxTime)
         entries.
Proof.
  unfold maxArrayLength. intros HT Hlen Hsum Hvalid.
  unfold getDomainPerformanceByEngine. cbv zeta.
  destruct (forEach_holds results) as (_ & _ & Hstats).
  set (engineStats := forEach results recordResult []) in *.
  assert (Hown : Z.of_nat (List.length (ownRows results))
                 <= Z.of_nat (List.length results)).
  { pose proof (filter_length_le
      (fun result => negb (inherited (engine result))) results).
    unfold ownRows. lia. }
  assert (Hrows : Forall (validRow maxTime) (ownRows results))
    by (apply Forall_filter; assumption).
  clear Hvalid. rename Hrows into Hvalid.
  set (rows := ownRows results) in *.
  assert (H32 : 2 ^ 32 - 1 = 4294967295) by reflexivity.
  assert (H53 : 2 ^ 53 = 9007199254740992) by reflexivity.
  assert (Hentry : forall entry, In entry engineStats ->
    exists e, entryOf entry = Some e
              /\ 0 <= Entry.avgSentimentScore e <= 100
              /\ 0 <= Entry.avgPerformanceScore e <= 100
              /\ 0 <= Entry.avgResponseTime e <= maxTime).
  { intros [k stats] Hin. rewrite (Hstats _ _ Hin). unfold entryOf.
    destruct (statsOf_range maxTime k rows (proj1 HT) Hvalid)
      as (Hn & Hs & Hp & Ht).
    set (n := Z.of_nat (List.length (rowsOf k rows))) in *.
    assert (Hcount : count (statsOf k rows) = n) by reflexivity.
    rewrite Hcount.
    assert (Hn0 : 0 <= n) by (unfold n; lia).
    destruct (average_range 100 _ n ltac:(lia) Hs ltac:(lia) ltac:(lia))
      as (s & -> & Hsr).
    destruct (average_range 100 _ n ltac:(lia) Hp ltac:(lia) ltac:(lia))
      as (p & -> & Hpr).
    destruct (average_range maxTime _ n ltac:(lia) Ht ltac:(nia) ltac:(lia))
      as (t & -> & Htr).
    eexists. split; [reflexivity | ].
    cbn [Entry.avgSentimentScore Entry.avgPerformanceScore
         Entry.avgResponseTime].
    repeat split; lia. }
  destruct (forOfPush_Some entryOf engineStats) as (entries & Hpush).
  { apply Forall_forall. intros entry Hin.
    destruct (Hentry entry Hin) as (e & He & _). exists e. assumption. }
  exists entries. split; [assumption | ].
  pose proof (forOfPush_Forall2 _ _ _ Hpush) as HF. clear Hpush.
  clear Hstats. induction HF as [ | entry e rest es He _ IH]; constructor.
  - destruct (Hentry entry (or_introl eq_refl)) as (e' & He' & Hr).
    rewrite He in He'. injection He' as <-. assumption.
  - apply IH. intros entry' Hin. apply Hentry. right. assumption.
Qed.

Lemma engine_averages_in_range_witness :
  let results :=
    [ {| engine := "openai"; sentimentScore := Some 80;
         performanceScore := Some 95; responseTime := Some 2100 |};
      {| engine := "gemini"; sentimentScore := Some 100;
         performanceScore := None; responseTime := Some 1502 |} ] in
  0 <= 60000 < 2 ^ 53
  /\ Z.of_nat (List.length results) <= maxArrayLength
  /\ 60000 * Z.of_nat (List.length results) < 2 ^ 53
  /\ Forall (validRow 60000) results
  /\ exists entries,
       getDomainPerformanceByEngine results = Some entries
       /\ Forall
            (fun e =>
               0 <= Entry.avgSentimentScore e <= 100
               /\ 0 <= Entry.avgPerformanceScore e <= 100
               /\ 0 <= Entry.avgResponseTime e <= 60000)
            entries.
Proof.
  cbv zeta.
  assert (H1 : 0 <= 60000 < 2 ^ 53) by (split; [lia | reflexivity]).
  match goal with
  | |- _ /\ ?len /\ ?sum /\ ?valid /\ _ =>
      assert (H2 : len) by (unfold maxArrayLength; cbn; lia);
      assert (H3 : sum) by reflexivity;
      assert (H4 : valid) by (repeat constructor; cbn; lia)
  end.
  exact (conj H1 (conj H2 (conj H3 (conj H4
           (engine_averages_in_range 60000 _ H1 H2 H3 H4))))).
Defined.

End PerformanceFacts.

(** ** Regular expressions: the test decides the matches *)

Module RegExpFacts.
Import RegExp.

Lemma append_empty (s1 s2 : string) :
  s1 ++ s2 = EmptyString -> s1 = EmptyString /\ s2 = EmptyString.
Proof. destruct s1; cbn; [auto | discriminate]. Qed.

Lemma nullable_spec (r : regex) : nullable r = true <-> Matches r EmptyString.
Proof.
  split.
  - induction r as [ | | accepts | r1 IH1 r2 IH2 | r1 IH1 r2 IH2 | r IH];
      cbn [nullable]; intros Hn; try discriminate.
    + constructor.
    + apply andb_true_iff in Hn. destruct Hn as (H1 & H2).
      apply (Matches_Seq r1 r2 EmptyString EmptyString); auto.
    + apply orb_true_iff in Hn. destruct Hn as [H1 | H2].
      * apply Matches_Alt_l. auto.
      * apply Matches_Alt_r. auto.
    + constructor.
  - intros Hm. remember EmptyString as s eqn:Hs.
    induction Hm as [ | accepts c Hc | r1 r2 s1 s2 _ IH1 _ IH2
                    | r1 r2 s _ IH | r1 r2 s _ IH | r | r s1 s2 _ _ _ _];
      cbn [nullable]; try reflexivity; try discriminate.
    + apply append_empty in Hs. destruct Hs as (-> & ->).
      rewrite IH1, IH2; reflexivity.
    + rewrite IH; [reflexivity | assumption].
    + rewrite IH; [apply orb_true_r | assumption].
Qed.

Lemma derivative_sound (c : ascii) (r : regex) :
  forall s, Matches (derivative c r) s -> Matches r (String c s).
Proof.
  induction r as [ | | accepts | r1 IH1 r2 IH2 | r1 IH1 r2 IH2 | r IH];
    intros s Hm; cbn [derivative] in Hm.
  - inversion Hm.
  - inversion Hm.
  - destruct (accepts c) eqn:Hc; inversion Hm; subst.
    constructor. assumption.
  - assert (Hseq : forall s', Matches (Seq (derivative c r1) r2) s' ->
                              Matches (Seq r1 r2) (String c s')).
    { intros s' H. inversion H as [ | | ? ? s1 s2 H1 H2 | | | | ]; subst.
      apply (Matches_Seq r1 r2 (String c s1) s2); auto. }
    destruct (nullable r1) eqn:Hn.
    + inversion Hm as [ | | | ? ? ? H | ? ? ? H | | ]; subst.
      * apply Hseq. assumption.
      * apply (Matches_Seq r1 r2 EmptyString (String c s)).
        -- apply nullable_spec. assumption.
        -- apply IH2. assumption.
    + apply Hseq. assumption.
  - inversion Hm as [ | | | ? ? ? H | ? ? ? H | | ]; subst.
    + apply Matches_Alt_l. auto.
    + apply Matches_Alt_r. auto.
  - inversion Hm as [ | | ? ? s1 s2 H1 H2 | | | | ]; subst.
    apply (Matches_Star_app r (String c s1) s2); auto.
Qed.

Lemma derivative_complete (r : regex) (cs : string) :
  Matches r cs ->
  forall c s, cs = String c s -> Matches (derivative c r) s.
Proof.
  induction 1 as [ | accepts c0 Hc | r1 r2 s1 s2 H1 IH1 H2 IH2
                 | r1 r2 s0 _ IH | r1 r2 s0 _ IH | r
                 | r s1 s2 H1 IH1 H2 IH2];
    intros c s Heq; cbn [derivative].
  - discriminate.
  - injection Heq as -> <-. rewrite Hc. constructor.
  - destruct s1 as [ | c1 s1'].
    + cbn [append] in Heq. subst s2.
      apply nullable_spec in H1. rewrite H1.
      apply Matches_Alt_r. apply IH2. reflexivity.
    + cbn [append] in Heq. injection Heq as -> <-.
      assert (Hseq : Matches (Seq (derivative c r1) r2) (s1' ++ s2)).
      { constructor; [apply IH1; reflexivity | assumption]. }
      destruct (nullable r1); [apply Matches_Alt_l | ]; assumption.
  - apply Matches_Alt_l. apply IH. assumption.
  - apply Matches_Alt_r. apply IH. assumption.
  - discriminate.
  - destruct s1 as [ | c1 s1'].
    + cbn [append] in Heq. apply (IH2 c s Heq).
    + cbn [append] in Heq. injection Heq as -> <-.
      constructor; [apply IH1; reflexivity | assumption].
Qed.

(** The test succeeds exactly on the strings the pattern matches. *)
Theorem test_spec (r : regex) (s : string) : test r s = true <-> Matches r s.
Proof.
  revert r. induction s as [ | c s IH]; intros r; cbn [test].
  - apply nullable_spec.
  - rewrite IH. split.
    + apply derivative_sound.
    + intros Hm. eapply derivative_complete; [eassumption | reflexivity].
Qed.

End RegExpFacts.

(** ** The client: the accepted domain names *)

Module ClientFacts.
Import RegExp RegExpFacts Client JSFacts EnginesFacts.

Lemma every_app (accepts : ascii -> bool) (s1 s2 : string) :
  every accepts (s1 ++ s2) = every accepts s1 && every accepts s2.
Proof.
  induction s1 as [ | c s1 IH]; cbn [append every]; [reflexivity | ].
  rewrite IH, andb_assoc. reflexivity.
Qed.

Lemma every_impl (p q : ascii -> bool) (s : string) :
  (forall c, p c = true -> q c = true) ->
  every p s = true -> every q s = true.
Proof.
  intros Hpq. induction s as [ | c s IH]; cbn [every]; [reflexivity | ].
  rewrite !andb_true_iff. intros (Hc & Hs). split; auto.
Qed.

Lemma Matches_Class_inv (accepts : ascii -> bool) (s : string) :
  Matches (Class accepts) s ->
  exists c, s = String c EmptyString /\ accepts c = true.
Proof. intros H. inversion H; subst. eexists. split; eauto. Qed.

Lemma Matches_Seq_inv (r1 r2 : regex) (s : string) :
  Matches (Seq r1 r2) s ->
  exists s1 s2, s = s1 ++ s2 /\ Matches r1 s1 /\ Matches r2 s2.
Proof. intros H. inversion H; subst. eexists _, _. split; eauto. Qed.

(** [[...]*] matches the strings made of characters of the class. *)
Lemma Matches_Star_Class (accepts : ascii -> bool) (s : string) :
  Matches (Star (Class accepts)) s <-> every accepts s = true.
Proof.
  split.
  - intros Hm. remember (Star (Class accepts)) as r eqn:Hr.
    induction Hm as [ | | | | | r0 | r0 s1 s2 H1 _ H2 IH2];
      try discriminate; [reflexivity | ].
    injection Hr as ->. apply Matches_Class_inv in H1.
    destruct H1 as (c & -> & Hc). cbn [append every].
    rewrite Hc, IH2; reflexivity.
  - induction s as [ | c s IH]; cbn [every]; [constructor | ].
    rewrite andb_true_iff. intros (Hc & Hs).
    apply (Matches_Star_app _ (String c EmptyString) s);
      [constructor; assumption | auto].
Qed.

(** [[...]{2,}] matches the strings of two or more characters of the
    class. *)
Lemma Matches_atLeast2_Class (accepts : ascii -> bool) (s : string) :
  Matches (atLeast 2 (Class accepts)) s
  <-> every accepts s = true /\ (2 <= String.length s)%nat.
Proof.
  cbn [atLeast]. split.
  - intros Hm.
    apply Matches_Seq_inv in Hm. destruct Hm as (s1 & s' & -> & H1 & Hm).
    apply Matches_Seq_inv in Hm. destruct Hm as (s2 & s3 & -> & H2 & H3).
    apply Matches_Class_inv in H1, H2.
    destruct H1 as (c1 & -> & Hc1). destruct H2 as (c2 & -> & Hc2).
    apply Matches_Star_Class in H3.
    cbn [append every String.length]. rewrite Hc1, Hc2, H3.
    split; [reflexivity | lia].
  - intros (Hall & Hlen).
    destruct s as [ | c1 [ | c2 s]]; cbn [String.length] in Hlen; try lia.
    cbn [every] in Hall. rewrite !andb_true_iff in Hall.
    destruct Hall as (Hc1 & Hc2 & Hs).
    apply (Matches_Seq _ _ (String c1 EmptyString) (String c2 s));
      [constructor; assumption | ].
    apply (Matches_Seq _ _ (String c2 EmptyString) s);
      [constructor; assumption | ].
    apply Matches_Star_Class. assumption.
Qed.

(** X11: [validateDomain] accepts exactly the names made of one label, a
    dot and a suffix: the label starts with a letter or a digit and goes
    on with letters, digits and hyphens (it may end with a hyphen), and
    the suffix is two or more letters. *)
Theorem validateDomain_spec (domain : string) :
  validateDomain domain = true
  <-> exists (c : ascii) (rest suffix : string),
        domain = String c rest ++ String "." suffix
        /\ isAlnum c = true
        /\ every isAlnumOrHyphen rest = true
        /\ every isLetter suffix = true
        /\ (2 <= String.length suffix)%nat.
Proof.
  unfold validateDomain, domainRegex. rewrite test_spec. split.
  - intros Hm.
    apply Matches_Seq_inv in Hm. destruct Hm as (s1 & t1 & -> & H1 & Hm).
    apply Matches_Seq_inv in Hm. destruct Hm as (s2 & t2 & -> & H2 & Hm).
    apply Matches_Seq_inv in Hm. destruct Hm as (s3 & t3 & -> & H3 & Hm).
    apply Matches_Seq_inv in Hm. destruct Hm as (s4 & s5 & -> & H4 & H5).
    apply Matches_Class_inv in H1, H4.
    destruct H1 as (c & -> & Hc). destruct H4 as (dot & -> & Hdot).
    apply Ascii.eqb_eq in Hdot. subst dot.
    apply Matches_Star_Class in H2, H3.
    apply Matches_atLeast2_Class in H5. destruct H5 as (Hall & Hlen).
    exists c, (s2 ++ s3), s5. repeat split; try assumption.
    + cbn [append]. rewrite append_assoc. reflexivity.
    + rewrite every_app, H2. cbn [andb].
      apply (every_impl isAlnum); [ | assumption].
      intros c0 H0. unfold isAlnumOrHyphen. rewrite H0. reflexivity.
  - intros (c & rest & suffix & -> & Hc & Hrest & Hsuffix & Hlen).
    apply (Matches_Seq _ _ (String c EmptyString) (rest ++ String "." suffix));
      [constructor; assumption | ].
    apply Matches_Seq; [apply Matches_Star_Class; assumption | ].
    apply (Matches_Seq _ _ EmptyString (String "." suffix));
      [constructor | ].
    apply (Matches_Seq _ _ (String "." EmptyString) suffix);
      [constructor; reflexivity | ].
    apply Matches_atLeast2_Class. split; assumption.
Qed.

Lemma occurrences_dot_cons (c : ascii) (s : string) :
  Spec.occurrences (String c s) "."
  = ((if Ascii.eqb "." c then 1 else 0) + Spec.occurrences s ".")%nat.
Proof.
  cbn [Spec.occurrences JS.startsWith]. destruct s; rewrite andb_true_r;
    reflexivity.
Qed.

Lemma occurrences_dot_app (s1 s2 : string) :
  Spec.occurrences (s1 ++ String "." s2) "."
  = (Spec.occurrences s1 "." + S (Spec.occurrences s2 "."))%nat.
Proof.
  induction s1 as [ | c s1 IH]; cbn [append].
  - rewrite occurrences_dot_cons. reflexivity.
  - rewrite !occurrences_dot_cons, IH. lia.
Qed.

Lemma occurrences_dot_none (accepts : ascii -> bool) (s : string) :
  accepts "."%char = false -> every accepts s = true ->
  Spec.occurrences s "." = 0%nat.
Proof.
  intros Hdot. induction s as [ | c s IH]; cbn [every]; [reflexivity | ].
  rewrite andb_true_iff. intros (Hc & Hs). rewrite occurrences_dot_cons, IH
    by assumption.
  destruct (Ascii.eqb "." c) eqn:Heq; [ | reflexivity].
  apply Ascii.eqb_eq in Heq. subst c. congruence.
Qed.

(** X12: an accepted domain name holds exactly one dot: names with a
    subdomain or a suffix of two parts, such as "www.example.com" or
    "example.co.uk", are refused. *)
Theorem validateDomain_one_dot (domain : string) :
  validateDomain domain = true -> Spec.occurrences domain "." = 1%nat.
Proof.
  intros Hvalid. apply validateDomain_spec in Hvalid.
  destruct Hvalid as (c & rest & suffix & -> & Hc & Hrest & Hsuffix & _).
  rewrite occurrences_dot_app.
  assert (H1 : Spec.occurrences (String c rest) "." = 0%nat).
  { apply (occurrences_dot_none isAlnumOrHyphen); [reflexivity | ].
    cbn [every]. rewrite Hrest. unfold isAlnumOrHyphen. rewrite Hc.
    reflexivity. }
  rewrite H1, (occurrences_dot_none isLetter _ eq_refl Hsuffix). reflexivity.
Qed.

Lemma validateDomain_one_dot_witness :
  validateDomain "my-shop.com" = true
  /\ Spec.occurrences "my-shop.com" "." = 1%nat
  /\ validateDomain "www.example.com" = false
  /\ validateDomain "example.co.uk" = false.
Proof.
  split; [reflexivity | ].
  split; [exact (validateDomain_one_dot "my-shop.com" eq_refl) | ].
  split; reflexivity.
Defined.

(** X13: the two views colour a performance score alike: the bar of the
    keyword rankings is green exactly when the grade of the engine
    performance is written in green (grades A+ and A, from 80), and red
    exactly when the grade is D (below 60). *)
Theorem performance_colours_agree (score : Z) :
  (getPerformanceColor score = "bg-green-500"
   <-> color (getPerformanceGrade score) = "text-green-600")
  /\ (getPerformanceColor score = "bg-green-500" <-> 80 <= score)
  /\ (getPerformanceColor score = "bg-red-500"
      <-> grade (getPerformanceGrade score) = "D")
  /\ (getPerformanceColor score = "bg-red-500" <-> score < 60).
Proof.
  unfold getPerformanceColor, getPerformanceGrade.
  destruct (90 <=? score) eqn:H90; destruct (80 <=? score) eqn:H80;
    destruct (70 <=? score) eqn:H70; destruct (60 <=? score) eqn:H60;
    rewrite ?Z.leb_le, ?Z.leb_gt in *; try lia;
    cbn [grade color];
    repeat split; intros H; solve [reflexivity | discriminate H | lia].
Qed.



(** X15: the engine performance view lists the entries of the server in
    descending order of average performance score, each entry once, the
    engine with the highest average first. *)
Theorem sortedPerformance_descending
  (performance : list PerformanceByEngine.Entry.t) :
  Permutation (sortedPerformance performance) performance
  /\ StronglySorted
       (fun a b =>
          PerformanceByEngine.Entry.avgPerformanceScore b
          <= PerformanceByEngine.Entry.avgPerformanceScore a)
       (sortedPerformance performance)
  /\ (forall best rest,
        sortedPerformance performance = best :: rest ->
        Forall
          (fun e =>
             PerformanceByEngine.Entry.avgPerformanceScore e
             <= PerformanceByEngine.Entry.avgPerformanceScore best)
          performance).
Proof.
  assert (Hperm : Permutation (sortedPerformance performance) performance).
  { unfold sortedPerformance. destruct performance as [ | e rest];
      [reflexivity | ].
    cbn [List.length Nat.ltb Nat.leb]. apply JSArrayFacts.sort_Permutation. }
  assert (Hsorted : StronglySorted
       (fun a b =>
          PerformanceByEngine.Entry.avgPerformanceScore b
          <= PerformanceByEngine.Entry.avgPerformanceScore a)
       (sortedPerformance performance)).
  { unfold sortedPerformance. destruct performance as [ | e rest];
      [constructor | ].
    cbn [List.length Nat.ltb Nat.leb].
    eapply StorageFacts.StronglySorted_impl;
      [ | apply JSArrayFacts.sort_sorted].
    - unfold JSArray.before. intros a b H. lia.
    - unfold JSArray.before. intros a b. lia.
    - unfold JSArray.before. intros a b c. lia. }
  split; [assumption | ]. split; [assumption | ].
  intros best rest Heq. rewrite Heq in Hperm, Hsorted.
  inversion Hsorted as [ | ? ? _ Hall]; subst.
  apply Forall_forall. intros e He.
  apply (Permutation_in _ (Permutation_sym Hperm)) in He.
  destruct He as [<- | He]; [lia | ].
  rewrite Forall_forall in Hall. apply Hall. assumption.
Qed.

Lemma sortedPerformance_descending_witness :
  let openai :=
    {| PerformanceByEngine.Entry.engine := "openai";
       PerformanceByEngine.Entry.avgSentimentScore := 40;
       PerformanceByEngine.Entry.avgPerformanceScore := 78;
       PerformanceByEngine.Entry.avgResponseTime := 3000;
       PerformanceByEngine.Entry.totalAnalyses := 2 |} in
  let gemini :=
    {| PerformanceByEngine.Entry.engine := "gemini";
       PerformanceByEngine.Entry.avgSentimentScore := 100;
       PerformanceByEngine.Entry.avgPerformanceScore := 100;
       PerformanceByEngine.Entry.avgResponseTime := 1502;
       PerformanceByEngine.Entry.totalAnalyses := 1 |} in
  sortedPerformance [openai; gemini] = [gemini; openai]
  /\ Forall
       (fun e =>
          PerformanceByEngine.Entry.avgPerformanceScore e
          <= PerformanceByEngine.Entry.avgPerformanceScore gemini)
       [openai; gemini].
Proof.
  cbv zeta.
  match goal with
  | |- sortedPerformance ?l = ?best :: ?rest /\ _ =>
      exact (conj eq_refl
               (proj2 (proj2 (sortedPerformance_descending l))
                  best rest eq_refl))
  end.
Defined.

End ClientFacts.

(** ** The storage layer: keywords are created, changed and removed *)

Module DatabaseFacts.
Import Storage Database.












End DatabaseFacts.
